(** * Implicit-token aligner: embedding of [aligner.py] and [dataset_merge.py]

    The development follows the Python sources function by function.

    - Tensors are lists: a one-dimensional tensor of token ids or mask
      flags is a [list Z]; a two-dimensional tensor of shape
      [(len, hidden)] is a list of rows; a three-dimensional tensor of
      shape [(len, batch, hidden)] is a list of lists of rows.  The
      scalar type of an embedding is a parameter [R]: no claim depends on
      floating-point values, only on shapes and on positions.
    - Python exceptions are the [Err] results of a small error monad.
    - The tokenizer and [nn.MultiheadAttention] are external objects.  The
      tokenizer is an interface (a type class); the attention module is a
      field of the aligner record, exactly as [self.cross_attention] is. *)

From stdpp Require Import gmap strings list fin_maps sorting.

Open Scope Z_scope.
Open Scope nat_scope.

(** ** Exceptions and the error monad *)

Inductive exn : Type :=
  | IndexError          (* tensor index out of bounds *)
  | ValueError          (* max() of an empty sequence, schema mismatch *)
  | RuntimeError        (* torch.cat over tensors of different sizes *)
  | FileNotFoundError   (* load_from_disk on a missing path *)
  | AttributeError.     (* .features on an object that has none *)

Inductive result (A : Type) : Type :=
  | Ok (a : A)
  | Err (e : exn).
Arguments Ok {A} a.
Arguments Err {A} e.

#[global] Instance result_ret : MRet result := λ A a, Ok a.
#[global] Instance result_bind : MBind result := λ A B f m,
  match m with
  | Ok a => f a
  | Err e => Err e
  end.

(** A Python [for] loop that appends one result per element and stops at
    the first exception. *)
Fixpoint for_each {A B : Type} (f : A → result B) (l : list A) : result (list B) :=
  match l with
  | [] => Ok []
  | x :: xs => y ← f x; ys ← for_each f xs; Ok (y :: ys)
  end.

(** ** Tensors *)

Section Tensors.
Context {A : Type}.

(** [t[a:b]] for 0 ≤ a, b: Python slices clamp to the length. *)
Definition slice (a b : nat) (t : list A) : list A := take (b - a) (drop a t).

(** [t.unsqueeze(1)] on a tensor whose first axis is the list. *)
Definition unsqueeze1 (t : list A) : list (list A) := (λ r, [r]) <$> t.

(** [t.squeeze(1)]: axis 1 is removed when it has size 1.  When it has
    another size, torch leaves the tensor three-dimensional and the
    following [torch.cat] with a two-dimensional tensor raises; [None]
    stands for that case. *)
Definition squeeze1 (t : list (list A)) : option (list A) :=
  mapM (λ x, match x with [r] => Some r | _ => None end) t.

(** [torch.cat(ts, dim=0)] over tensors of shape [(1, len_i, ...)]: all
    [len_i] must agree. *)
Definition cat_rows (ts : list (list A)) : result (list (list A)) :=
  match ts with
  | [] => Err RuntimeError
  | t :: _ =>
      if forallb (λ u, Nat.eqb (length u) (length t)) ts then Ok ts
      else Err RuntimeError
  end.
End Tensors.

(** Shapes of two- and three-dimensional tensors. *)
Definition shape2 {A} (n h : nat) (t : list (list A)) : Prop :=
  length t = n ∧ Forall (λ r, length r = h) t.

Definition shape3 {A} (n b h : nat) (t : list (list (list A))) : Prop :=
  length t = n ∧ Forall (shape2 b h) t.

(** [(ids == x).nonzero(as_tuple=True)[0]]: the positions holding [x], in
    increasing order. *)
Fixpoint nonzero_eq_from (i : nat) (x : Z) (ids : list Z) : list nat :=
  match ids with
  | [] => []
  | y :: ys =>
      if bool_decide (y = x) then i :: nonzero_eq_from (S i) x ys
      else nonzero_eq_from (S i) x ys
  end.

Definition nonzero_eq (x : Z) (ids : list Z) : list nat := nonzero_eq_from 0 x ids.

(** ** The tokenizer interface *)

Class Tokenizer : Type := {
  convert_tokens_to_ids : string → Z;
  (* tokenizer(text, add_special_tokens=False)["input_ids"] *)
  encode : string → list Z;
  pad_token_id : Z;
  (* tokenizer.pad({"input_ids": seqs}, return_tensors="pt")["input_ids"] *)
  pad : list (list Z) → list (list Z)
}.

(** Padding to the longest sequence of the batch, on the right, with the
    pad token id: what [tokenizer.pad] does with its default arguments
    on a right-padding tokenizer. *)
Definition right_pad (p : Z) (seqs : list (list Z)) : list (list Z) :=
  (λ s, s ++ replicate (max_list (length <$> seqs) - length s) p) <$> seqs.

Class RightPadding (tok : Tokenizer) : Prop :=
  pad_right : ∀ seqs, pad seqs = right_pad pad_token_id seqs.

(** ** ImplicitTokensAligner *)

Section Aligner.
Context {R : Type}.

Local Abbreviation row := (list R).

(** The module's state after [__init__]. *)
Record Aligner : Type := {
  hidden_size : nat;
  k : nat;
  implicit_tokens : list row;                 (* nn.Parameter, (k, hidden_size) *)
  cross_attention :                           (* nn.MultiheadAttention *)
    list (list row) → list (list row) → list (list row) → list (list row)
}.

(** What [__init__] establishes: [torch.randn(k, hidden_size)]. *)
Definition tokens_shape (a : Aligner) : Prop :=
  shape2 (k a) (hidden_size a) (implicit_tokens a).

(** The shape contract of [nn.MultiheadAttention] (sequence-first
    layout): a query of shape [(Lq, N, E)] against keys and values of
    shape [(Lk, N, E)], [Lk ≥ 1], gives an output of shape [(Lq, N, E)]. *)
Definition attention_shape (a : Aligner) : Prop :=
  ∀ q kv Lq Lk N,
    shape3 Lq N (hidden_size a) q →
    shape3 Lk N (hidden_size a) kv →
    1 ≤ Lk →
    shape3 Lq N (hidden_size a) (cross_attention a q kv kv).

Context `{tok : Tokenizer}.

(** Lines 44-62 of [forward]: the located region of one example.
    [Ok None] is the "leave this example unchanged" outcome. *)
Definition locate (ids : list Z) : result (option (nat * nat)) :=
  let think_token_id := convert_tokens_to_ids "<think>" in
  let end_think_token_id := convert_tokens_to_ids "</think>" in
  let think_positions := nonzero_eq think_token_id ids in
  let end_think_positions := nonzero_eq end_think_token_id ids in
  if Nat.eqb (length think_positions) 0 || Nat.eqb (length end_think_positions) 0
  then Ok None
  else
    match think_positions !! 2 with
    | None => Err IndexError
    | Some start_idx =>
        let end_idx_candidates :=
          filter (λ e, start_idx < e) end_think_positions in
        if Nat.eqb (length end_idx_candidates) 0 then Ok None
        else
          match last end_idx_candidates with
          | None => Err IndexError
          | Some end_idx => Ok (Some (start_idx, end_idx))
          end
    end.

(** Lines 76-80: the region aggregator. *)
Definition aligned_region (a : Aligner) (region_emb : list row) : option (list row) :=
  let queries := unsqueeze1 (implicit_tokens a) in
  let region_emb_seq := unsqueeze1 region_emb in
  let attn_output := cross_attention a queries region_emb_seq region_emb_seq in
  squeeze1 attn_output.

(** The body of the loop over the batch (lines 40-90) for one example. *)
Definition forward_example (a : Aligner)
    (ex : list Z * list row * list Z) : result (list row * list Z) :=
  let '(ids, emb, mask) := ex in
  loc ← locate ids;
  match loc with
  | None => Ok (emb, mask)
  | Some (start_idx, end_idx) =>
      let region_emb := slice (start_idx + 1) end_idx emb in
      let region_len := length region_emb in
      if Nat.eqb region_len 0 then
        Ok (take start_idx emb ++ drop (end_idx + 1) emb,
            take start_idx mask ++ drop (end_idx + 1) mask)
      else
        match aligned_region a region_emb with
        | None => Err RuntimeError
        | Some aligned =>
            Ok (take start_idx emb ++ aligned ++ drop (end_idx + 1) emb,
                take start_idx mask ++ replicate (k a) 1%Z ++ drop (end_idx + 1) mask)
        end
  end.

(** Lines 92-108: padding to the longest reassembled sequence.  The
    embeddings of a batch and the pad embedding are tensors of one hidden
    width, which [torch.cat] requires; the lists do not record it, and
    the theorems that depend on it state it as a hypothesis. *)
Definition pad_example (max_len : nat) (pad_token_emb : row)
    (p : list row * list Z) : list row * list Z :=
  let '(emb, mask) := p in
  let pad_len := max_len - length emb in
  if Nat.ltb 0 pad_len then
    (emb ++ replicate pad_len pad_token_emb, mask ++ replicate pad_len 0%Z)
  else (emb, mask).

Definition pad_batch (pad_token_emb : row)
    (new_list : list (list row * list Z)) : result (list (list row) * list (list Z)) :=
  let new_seq_lengths := (λ p, length p.1) <$> new_list in
  match new_seq_lengths with
  | [] => Err ValueError
  | _ =>
      let max_len := max_list new_seq_lengths in
      let padded := pad_example max_len pad_token_emb <$> new_list in
      new_embeddings ← cat_rows (fst <$> padded);
      new_attention_mask ← cat_rows (snd <$> padded);
      Ok (new_embeddings, new_attention_mask)
  end.

(** [ImplicitTokensAligner.forward]; the three input tensors share their
    batch axis. *)
Definition forward (a : Aligner) (embeddings : list (list row))
    (input_ids : list (list Z)) (attention_mask : list (list Z))
    (pad_token_emb : row) : result (list (list row) * list (list Z)) :=
  let batch := zip (zip input_ids embeddings) attention_mask in
  new_list ← for_each (forward_example a) batch;
  pad_batch pad_token_emb new_list.
End Aligner.

Arguments Aligner R : clear implicits.

(** ** data_collator *)

(** A preprocessed example: the output of [preprocess_example]. *)
Record Example : Type := {
  full_text : string;
  prompt_length : nat
}.

(** The dictionary returned by [data_collator]. *)
Record Collated : Type := {
  input_ids : list (list Z);
  attention_mask : list (list Z);
  labels : list (list Z)
}.

Section Collator.
Context `{tok : Tokenizer}.

(** Lines 245-249: [[-100] * p_len + ids[p_len:]]. *)
Definition example_labels (example : Example) : list Z :=
  let ids := encode (full_text example) in
  let p_len := prompt_length example in
  replicate p_len (-100)%Z ++ drop p_len ids.

(** [(batch_inputs != tokenizer.pad_token_id).long()]. *)
Definition ne_pad_long (batch_inputs : list (list Z)) : list (list Z) :=
  (λ r : list Z, (λ x, if bool_decide (x ≠ pad_token_id) then 1%Z else 0%Z) <$> r) <$> batch_inputs.

(** Lines 242-256, for a batch of at least one example.  On an empty
    batch [tokenizer.pad] hands back a plain list and the comparison of
    line 255 raises. *)
Definition data_collator (batch : list Example) : Collated :=
  let ids_list := (λ example, encode (full_text example)) <$> batch in
  let labels_list := example_labels <$> batch in
  let batch_inputs := pad ids_list in
  let batch_labels := pad labels_list in
  {| input_ids := batch_inputs;
     attention_mask := ne_pad_long batch_inputs;
     labels := batch_labels |}.
End Collator.

(** ** tools/dataset_merge.py *)

(** A dataset: its [features] (column name to type name; a Python dict,
    compared without regard to order) and its records. *)
Record Dataset : Type := {
  features : gmap string string;
  records : list (gmap string string)
}.

(** What a directory written by [save_to_disk] holds. *)
Inductive Stored : Type :=
  | StoredDataset (d : Dataset)
  | StoredDatasetDict (splits : gmap string Dataset).

Section Merge.
(** [Dataset.train_test_split(test_size=0.1)]: a random split of a
    dataset of at least two records.  With fewer records the train set
    would be empty and the call raises [ValueError]; [merge_steps] makes
    that check before it uses the split. *)
Variable train_test_split : Dataset → gmap string Dataset.

Definition load_from_disk (disk : gmap string Stored) (path : string) : result Stored :=
  match disk !! path with
  | Some s => Ok s
  | None => Err FileNotFoundError
  end.

(** [.features]: a [DatasetDict] has no such attribute. *)
Definition get_features (s : Stored) : result (gmap string string) :=
  match s with
  | StoredDataset d => Ok (features d)
  | StoredDatasetDict _ => Err AttributeError
  end.

Definition get_dataset (s : Stored) : result Dataset :=
  match s with
  | StoredDataset d => Ok d
  | StoredDatasetDict _ => Err AttributeError
  end.

Definition concatenate_datasets (d1 d2 : Dataset) : Dataset :=
  {| features := features d1; records := records d1 ++ records d2 |}.

(** The script up to [save_to_disk], as a computation that returns the
    new disk, or the exception that ended it. *)
Definition merge_steps (disk : gmap string Stored) : result (gmap string Stored) :=
  dataset1 ← load_from_disk disk "data/s1";
  dataset2 ← load_from_disk disk "data/s2";
  f1 ← get_features dataset1;
  f2 ← get_features dataset2;
  if bool_decide (f1 ≠ f2) then Err ValueError
  else
    d1 ← get_dataset dataset1;
    d2 ← get_dataset dataset2;
    let merged_dataset := concatenate_datasets d1 d2 in
    if Nat.ltb (length (records merged_dataset)) 2 then Err ValueError
    else
      let merged_dataset := train_test_split merged_dataset in
      Ok (<["data/merged" := StoredDatasetDict merged_dataset]> disk).

(** Running the script on a disk: the disk afterwards, and how the script
    ended.  Nothing is written unless [save_to_disk] is reached. *)
Definition dataset_merge (disk : gmap string Stored) : gmap string Stored * result () :=
  match merge_steps disk with
  | Ok disk' => (disk', Ok ())
  | Err e => (disk, Err e)
  end.
End Merge.

(** ** ImplicitTokensAlignment.forward *)

Section Alignment.
Context {R Out : Type} `{tok : Tokenizer}.

(** The wrapper after [__init__]: the weight of the input embedding layer
    of the language model, the aligner, and the language model itself,
    which is external: it receives [inputs_embeds], [attention_mask] and
    [labels]. *)
Record Alignment : Type := {
  embed_tokens : list (list R);                 (* (vocab, hidden_size) *)
  aligner : Aligner R;
  model : list (list (list R)) → list (list Z) → option (list (list Z)) → result Out
}.

(** [nn.Embedding] applied to one index: the row of the weight, or an
    index error outside the table. *)
Definition embedding (weight : list (list R)) (t : Z) : result (list R) :=
  if bool_decide (t < 0)%Z then Err IndexError
  else match weight !! Z.to_nat t with
       | Some r => Ok r
       | None => Err IndexError
       end.

(** Lines 192-203. *)
Definition alignment_forward (m : Alignment) (input_ids attention_mask : list (list Z))
    (labels : option (list (list Z))) : result Out :=
  input_embeddings ← for_each (for_each (embedding (embed_tokens m))) input_ids;
  pad_token_emb ← embedding (embed_tokens m) pad_token_id;
  out ← forward (aligner m) input_embeddings input_ids attention_mask pad_token_emb;
  model m out.1 out.2 labels.
End Alignment.

Arguments Alignment R Out : clear implicits.

(** ** Python string operations used by the scripts

    Strings are sequences of bytes (the UTF-8 encoding of the Python
    string); searching for a substring, splitting at it and removing it
    give the same result on the encoding as on the characters. *)

(** [s.startswith(p)]. *)
Fixpoint starts_with (p s : string) : bool :=
  match p with
  | EmptyString => true
  | String a p' =>
      match s with
      | EmptyString => false
      | String b s' => if Ascii.eqb a b then starts_with p' s' else false
      end
  end.

(** [sub in s]. *)
Fixpoint str_contains (sub s : string) : bool :=
  starts_with sub s ||
  match s with
  | EmptyString => false
  | String _ s' => str_contains sub s'
  end.

(** [s.replace(old, "")] scans from the left and drops every occurrence
    of [old] that does not overlap an earlier one; [skip] counts the
    bytes of the current occurrence that remain to be dropped. *)
Fixpoint remove_from (old : string) (skip : nat) (s : string) : string :=
  match s with
  | EmptyString => EmptyString
  | String c s' =>
      match skip with
      | S n => remove_from old n s'
      | O =>
          if starts_with old s then remove_from old (String.length old - 1) s'
          else String c (remove_from old 0 s')
      end
  end.

Definition str_remove (old s : string) : string :=
  match old with
  | EmptyString => s
  | _ => remove_from old 0 s
  end.

(** [s.split(sep)] for a non-empty [sep]: the pieces between the
    occurrences of [sep], found from the left without overlap.  The
    result is never empty. *)
Definition push_char (c : Ascii.ascii) (pieces : list string) : list string :=
  match pieces with
  | [] => [String c EmptyString]
  | p :: ps => String c p :: ps
  end.

Fixpoint split_from (sep : string) (skip : nat) (s : string) : list string :=
  match s with
  | EmptyString => [EmptyString]
  | String c s' =>
      match skip with
      | S n => split_from sep n s'
      | O =>
          if starts_with sep s
          then EmptyString :: split_from sep (String.length sep - 1) s'
          else push_char c (split_from sep 0 s')
      end
  end.

Definition str_split (sep s : string) : list string := split_from sep 0 s.

(** [l.remove(x)]: the first occurrence is removed. *)
Fixpoint list_remove (x : Z) (l : list Z) : list Z :=
  match l with
  | [] => []
  | y :: l' => if bool_decide (y = x) then l' else y :: list_remove x l'
  end.

(** ** preprocess_example *)

(** The end-of-sequence token of a tokenizer. *)
Class EosTokenizer (tok : Tokenizer) : Type := {
  eos_token : string;
  eos_token_id : Z
}.

(** [example[key]] on a record of the dataset. *)
Inductive key_error : Type := KeyError (key : string).

Definition getitem (example : gmap string string) (key : string) : key_error + string :=
  match example !! key with
  | Some v => inr v
  | None => inl (KeyError key)
  end.

Section Preprocess.
Context `{tok : Tokenizer} `{!EosTokenizer tok}.

(** Lines 224-226: the prompt, without the end-of-sequence token. *)
Definition prompt_text (system_prompt problem logic_trajectory : string) : string :=
  let prompt_part :=
    "<｜begin▁of▁sentence｜>" +:+ system_prompt +:+ "<｜User｜>" +:+ problem
      +:+ "<｜Assistant｜><think>" +:+ logic_trajectory +:+ "</think><answer>" in
  if str_contains eos_token prompt_part then str_remove eos_token prompt_part
  else prompt_part.

(** Lines 230-234: the number of prompt tokens, one end-of-sequence id
    removed. *)
Definition prompt_token_count (prompt_part : string) : nat :=
  let prompt_ids := encode prompt_part in
  let prompt_ids :=
    if bool_decide (eos_token_id ∈ prompt_ids) then list_remove eos_token_id prompt_ids
    else prompt_ids in
  length prompt_ids.

Definition preprocess_example (example : gmap string string)
    (system_prompt : string) : key_error + Example :=
  match getitem example "problem" with
  | inl e => inl e
  | inr problem =>
      match getitem example "logic_trajectory" with
      | inl e => inl e
      | inr logic_trajectory =>
          let prompt_part := prompt_text system_prompt problem logic_trajectory in
          match getitem example "answer" with
          | inl e => inl e
          | inr answer =>
              let target_part := answer +:+ "</answer>" in
              let full_text := prompt_part +:+ target_part in
              inr {| full_text := full_text;
                     prompt_length := prompt_token_count prompt_part |}
          end
      end
  end.
End Preprocess.

(** ** align_data_prepare.py *)

(** A generated sample, as appended to [batch_outputs]. *)
Record Sample : Type := {
  problem : string;
  solution : string;
  logic_trajectory : string;
  answer : string
}.

(** [validate_output]. *)
Definition validate_output (output : string) : bool :=
  str_contains "<think>" output && str_contains "</think>" output.

(** [output.split("<think>")[1].split("</think>")[0]]; [None] when a
    subscript is out of range. *)
Definition think_piece (output : string) : option string :=
  piece ← str_split "<think>" output !! 1;
  str_split "</think>" piece !! 0.

(** The answer before it is stripped: between the answer tags when both
    occur in the output, else what follows the first [</think>]. *)
Definition answer_piece (output : string) : option string :=
  if str_contains "<answer>" output && str_contains "</answer>" output
  then
    piece ← str_split "<answer>" output !! 1;
    str_split "</answer>" piece !! 0
  else str_split "</think>" output !! 1.

Section DataPrepare.
(** [str.strip()]: which characters count as white space is left to
    Python. *)
Variable strip : string → string.

(** [extract_logic_and_answer]; [None] stands for [(None, None)].  An
    [IndexError] of a subscript is caught and gives [None] as well. *)
Definition extract_logic_and_answer (output : string) : option (string * string) :=
  think ← think_piece output;
  let think_content := strip think in
  ans ← answer_piece output;
  let answer_content := strip ans in
  if Nat.eqb (String.length think_content) 0 || Nat.eqb (String.length answer_content) 0
  then None
  else Some (think_content, answer_content).

(** [llm.generate([text], SamplingParams(n=...))[0].outputs], as the
    texts of the outputs: the model is external and random, so the
    result depends on the number of the call. *)
Variable generate : nat → nat → list string.

(** The [for output in outputs[0].outputs] loop, with its [break]. *)
Fixpoint collect_outputs (problem solution : string) (k : nat)
    (outputs : list string) (batch_outputs : list Sample) : list Sample :=
  match outputs with
  | [] => batch_outputs
  | output :: rest =>
      let generated_text := strip output in
      if validate_output generated_text then
        match extract_logic_and_answer generated_text with
        | Some (think_content, answer_content) =>
            let batch_outputs :=
              batch_outputs ++ [ {| problem := problem; solution := solution;
                                    logic_trajectory := think_content;
                                    answer := answer_content |} ] in
            if Nat.leb k (length batch_outputs) then batch_outputs
            else collect_outputs problem solution k rest batch_outputs
        | None => collect_outputs problem solution k rest batch_outputs
        end
      else collect_outputs problem solution k rest batch_outputs
  end.

(** The [while] loop; [remaining] is [max_retries - retries].  The result
    is the final value of [retries] and of [batch_outputs]. *)
Fixpoint retry_loop (problem solution : string) (k : nat) (remaining retries : nat)
    (batch_outputs : list Sample) : nat * list Sample :=
  if Nat.ltb (length batch_outputs) k then
    match remaining with
    | O => (retries, batch_outputs)
    | S remaining' =>
        let retries := S retries in
        let outputs := generate retries (k - length batch_outputs) in
        retry_loop problem solution k remaining' retries
          (collect_outputs problem solution k outputs batch_outputs)
    end
  else (retries, batch_outputs).

(** Lines 82-115 for one item of the dataset; [k] and [max_retries] are
    Python integers. *)
Definition sample_item (problem solution : string) (k max_retries : Z) : nat * list Sample :=
  let r := retry_loop problem solution (Z.to_nat k) (Z.to_nat max_retries) 0 [] in
  (r.1, take (Z.to_nat k) r.2).
End DataPrepare.

(** ** Concrete objects used in the examples *)

(** A tokenizer with one token per character, [<think>] at id 3 and
    [</think>] at id 9, pad id 0. *)
Definition char_tokenizer : Tokenizer := {|
  convert_tokens_to_ids s :=
    if String.eqb s "<think>" then 3%Z
    else if String.eqb s "</think>" then 9%Z else 1%Z;
  encode s := (λ c, Z.of_nat (Ascii.nat_of_ascii c)) <$> String.list_ascii_of_string s;
  pad_token_id := 0%Z;
  pad := right_pad 0%Z
|}.

(** An aligner over integer scalars with [k = 2], [hidden_size = 2]; its
    attention gives every query the first value row (all weight on the
    first key). *)
Definition first_value_attention (q ks vs : list (list (list Z))) : list (list (list Z)) :=
  (λ _, default [] (head vs)) <$> q.

Definition small_aligner : Aligner Z := {|
  hidden_size := 2;
  k := 2;
  implicit_tokens := [[1%Z; 0%Z]; [0%Z; 1%Z]];
  cross_attention := first_value_attention
|}.

(** The embedding of token [t] in the examples: the row [[t; t]]. *)
Definition embed (ids : list Z) : list (list Z) := (λ t, [t; t]) <$> ids.

(** Scenario A of the specification. *)
Definition scenario_A : list Z := [5; 7; 3; 3; 3; 9; 9; 2]%Z.

(** Two datasets with different field sets (scenario C), a disk holding
    them, and a split that keeps every record in [train]. *)
Definition dataset_A : Dataset := {|
  features := {[ "problem" := "string"; "solution" := "string";
                 "logic_trajectory" := "string"; "answer" := "string" ]};
  records := [ {[ "problem" := "1+1"; "solution" := "2";
                  "logic_trajectory" := "add"; "answer" := "2" ]} ]
|}.

Definition dataset_B : Dataset := {|
  features := {[ "problem" := "string"; "answer" := "string" ]};
  records := [ {[ "problem" := "2+2"; "answer" := "4" ]} ]
|}.

Definition disk_AB : gmap string Stored :=
  {[ "data/s1" := StoredDataset dataset_A; "data/s2" := StoredDataset dataset_B ]}.

Definition disk_AA : gmap string Stored :=
  {[ "data/s1" := StoredDataset dataset_A; "data/s2" := StoredDataset dataset_A ]}.

Definition split_all_train (d : Dataset) : gmap string Dataset :=
  {[ "train" := d; "test" := {| features := features d; records := [] |} ]}.

(** A prompt of two tokens in a text of four tokens. *)
Definition abcd_example : Example := {| full_text := "abcd"; prompt_length := 2 |}.

(** A batch of two preprocessed examples of different lengths. *)
Definition two_examples : list Example :=
  [ {| full_text := "abcd"; prompt_length := 2 |};
    {| full_text := "ab"; prompt_length := 1 |} ].

(** A batch of two reassembled (sequence, mask) pairs. *)
Definition two_sequences : list (list (list Z) * list Z) :=
  [ (embed [4; 5; 6]%Z, [1; 1; 1]%Z); (embed [7]%Z, [1]%Z) ].

(** Batches of two examples of eight tokens: one in which both examples
    have a region, one whose second example has a single open tag, and
    one without any open tag. *)
Definition region_batch : list (list Z) :=
  [scenario_A; [3; 3; 3; 9; 5; 5; 5; 5]%Z].

Definition faulty_batch : list (list Z) :=
  [scenario_A; [3; 9; 5; 5; 5; 5; 5; 5]%Z].

Definition plain_batch : list (list Z) :=
  [[5; 7; 2; 2; 9; 9; 2; 2]%Z; [1; 1; 1; 1; 1; 1; 1; 1]%Z].

Definition ones_masks : list (list Z) := [replicate 8 1%Z; replicate 8 1%Z].

(** The end-of-sequence token of [char_tokenizer] is the dollar sign, and
    a record of the dataset. *)
Definition char_eos : EosTokenizer char_tokenizer := {|
  eos_token := "$";
  eos_token_id := 36%Z
|}.

Definition sum_record : gmap string string :=
  {[ "problem" := "1+1$"; "solution" := "2";
     "logic_trajectory" := "add"; "answer" := "2" ]}.

(** [str.strip()] on texts whose white space is ASCII, for the examples. *)
Definition is_space (c : Ascii.ascii) : bool :=
  let n := Ascii.nat_of_ascii c in
  Nat.eqb n 32 || (Nat.leb 9 n && Nat.leb n 13) || (Nat.leb 28 n && Nat.leb n 31).

Fixpoint lstrip (s : string) : string :=
  match s with
  | EmptyString => EmptyString
  | String c s' => if is_space c then lstrip s' else s
  end.

Definition ascii_strip (s : string) : string :=
  String.rev (lstrip (String.rev (lstrip s))).

(** A generator that answers the first call with one malformed and one
    well-formed output, and later calls with well-formed outputs. *)
Definition two_round_generate (call n : nat) : list string :=
  match call with
  | 1 => ["no tags at all"; " <think> add </think> <answer> 2 </answer> "]
  | _ => replicate n "<think>carry</think>3"
  end.

(** A generator whose outputs are all well-formed. *)
Definition steady_generate (call n : nat) : list string :=
  replicate n "<think>carry</think>3".

(** A wrapper around [small_aligner]: ten tokens, token [t] embedded as
    [[t; t]], and a language model that returns the number of sequences
    it receives. *)
Definition small_alignment : Alignment Z nat := {|
  embed_tokens := embed (Z.of_nat <$> seq 0 10);
  aligner := small_aligner;
  model := λ inputs_embeds _ _, Ok (length inputs_embeds)
|}.

(** ** Notions used in the statements *)

(** The number of occurrences of [x] in [ids]. *)
Definition occurrences (x : Z) (ids : list Z) : nat :=
  length (filter (λ y, y = x) ids).

(** [s] is the position of the third occurrence of [x]: it holds [x] and
    exactly two occurrences of [x] come before it. *)
Definition third_occurrence (x : Z) (ids : list Z) (s : nat) : Prop :=
  ids !! s = Some x ∧ occurrences x (take s ids) = 2.

(** The padded batch, written out: every sequence followed by as many pad
    embeddings (zeros for the mask) as it is shorter than the longest. *)
Definition padded_embeddings {R : Type} (pad_token_emb : list R)
    (new_list : list (list (list R) * list Z)) : list (list (list R)) :=
  let max_len := max_list ((λ p, length p.1) <$> new_list) in
  (λ p, p.1 ++ replicate (max_len - length p.1) pad_token_emb) <$> new_list.

Definition padded_masks {R : Type}
    (new_list : list (list (list R) * list Z)) : list (list Z) :=
  let max_len := max_list ((λ p, length p.1) <$> new_list) in
  (λ p, p.2 ++ replicate (max_len - length p.1) 0%Z) <$> new_list.

(** The length of the longest sequence of a batch. *)
Definition batch_max_len {R : Type}
    (new_list : list (list (list R) * list Z)) : nat :=
  max_list ((λ p, length p.1) <$> new_list).

(** The length of the longest tokenized text of a batch of examples. *)
Definition collated_max_len `{tok : Tokenizer} (batch : list Example) : nat :=
  max_list ((λ example, length (encode (full_text example))) <$> batch).

(** An example on which the lookup of the third open position is out of
    bounds: one or two open tags and at least one close tag. *)
Definition faulty `{tok : Tokenizer} (ids : list Z) : Prop :=
  1 ≤ occurrences (convert_tokens_to_ids "<think>") ids < 3 ∧
  1 ≤ occurrences (convert_tokens_to_ids "</think>") ids.

(** The input tensors of [forward] have shapes [(B, n, h)], [(B, n)] and
    [(B, n)]. *)
Definition batch_shape {R : Type} (n h : nat) (embeddings : list (list (list R)))
    (input_ids attention_mask : list (list Z)) : Prop :=
  length input_ids = length embeddings ∧
  length attention_mask = length embeddings ∧
  Forall (shape2 n h) embeddings ∧
  Forall (λ ids, length ids = n) input_ids ∧
  Forall (λ m, length m = n) attention_mask.

(** [a] put in front of the first piece of a split. *)
Definition push_str (a : string) (pieces : list string) : list string :=
  match pieces with
  | [] => [a]
  | p :: ps => (a +:+ p) :: ps
  end.

(** What every stored sample satisfies. *)
Definition sample_ok (problem0 solution0 : string) (s : Sample) : Prop :=
  problem s = problem0 ∧ solution s = solution0 ∧
  logic_trajectory s ≠ "" ∧ answer s ≠ "".

(** An output from which a sample is made. *)
Definition usable (strip : string → string) (output : string) : Prop :=
  validate_output (strip output) = true ∧
  is_Some (extract_logic_and_answer strip (strip output)).

(** * Properties *)

(** ** Positions of a token *)

Lemma filter_nil_Forall {A} (P : A → Prop) `{∀ x, Decision (P x)} (l : list A) :
  filter P l = [] ↔ Forall (λ x, ¬ P x) l.
Proof.
  induction l as [|x l IH]; [by rewrite filter_nil|].
  rewrite filter_cons, Forall_cons. destruct (decide (P x)); [|by rewrite IH; tauto].
  split; [discriminate | tauto].
Qed.

Lemma elem_of_nonzero_eq_from i x ids p :
  p ∈ nonzero_eq_from i x ids ↔ ∃ j, p = i + j ∧ ids !! j = Some x.
Proof.
  revert i p. induction ids as [|y ys IH]; intros i p; simpl.
  - rewrite elem_of_nil. split; [done | by intros (j & _ & ?)].
  - assert (Hrec : p ∈ nonzero_eq_from (S i) x ys → ∃ j, p = i + j ∧ (y :: ys) !! j = Some x).
    { rewrite IH. intros (j & -> & Hj). exists (S j). split; [lia | done]. }
    assert (Hrec' : ∀ j, ys !! j = Some x → i + S j ∈ nonzero_eq_from (S i) x ys).
    { intros j Hj. apply IH. exists j. split; [lia | done]. }
    case_bool_decide as Hy; [rewrite elem_of_cons|]; split.
    + intros [->|Hp]; [exists 0; split; [lia | by rewrite Hy] | by apply Hrec].
    + intros ([|j] & -> & Hj); [left; lia | right; by apply Hrec'].
    + apply Hrec.
    + intros ([|j] & -> & Hj); [by injection Hj | by apply Hrec'].
Qed.

Lemma elem_of_nonzero_eq x ids p :
  p ∈ nonzero_eq x ids ↔ ids !! p = Some x.
Proof.
  unfold nonzero_eq. rewrite elem_of_nonzero_eq_from. split.
  - by intros (j & -> & Hj).
  - intros Hp. by exists p.
Qed.

Lemma length_nonzero_eq_from i x ids :
  length (nonzero_eq_from i x ids) = occurrences x ids.
Proof.
  unfold occurrences. revert i.
  induction ids as [|y ys IH]; intros i; simpl; [done|].
  rewrite filter_cons. case_bool_decide; case_decide; try done; simpl; by rewrite IH.
Qed.

Lemma length_nonzero_eq x ids :
  length (nonzero_eq x ids) = occurrences x ids.
Proof. apply length_nonzero_eq_from. Qed.

Lemma occurrences_0 x ids : occurrences x ids = 0 ↔ x ∉ ids.
Proof.
  unfold occurrences. rewrite length_zero_iff_nil, filter_nil_Forall, Forall_forall.
  split.
  - intros Hall Hin. by apply (Hall x).
  - intros Hnot y Hy ->. done.
Qed.

Lemma occurrences_cons_eq x l : occurrences x (x :: l) = S (occurrences x l).
Proof. unfold occurrences. by rewrite filter_cons_True. Qed.

Lemma occurrences_cons_ne x y l : y ≠ x → occurrences x (y :: l) = occurrences x l.
Proof. intros Hne. unfold occurrences. by rewrite filter_cons_False. Qed.

(** The entry of index [n] is the position of the occurrence that has
    exactly [n] occurrences before it. *)
Lemma nonzero_eq_from_lookup i x ids n p :
  nonzero_eq_from i x ids !! n = Some p ↔
  ∃ j, p = i + j ∧ ids !! j = Some x ∧ occurrences x (take j ids) = n.
Proof.
  revert i n p. induction ids as [|y ys IH]; intros i n p; simpl.
  - split; [done | by intros (j & _ & ? & _)].
  - case_bool_decide as Hy.
    + subst y. destruct n as [|n]; simpl.
      * split.
        -- intros [= <-]. exists 0. split; [lia | done].
        -- intros ([|j] & -> & Hj & Hocc); [f_equal; lia|].
           simpl in Hocc. by rewrite occurrences_cons_eq in Hocc.
      * rewrite IH. split.
        -- intros (j & -> & Hj & Hocc). exists (S j).
           split; [lia|]. split; [done|]. simpl. by rewrite occurrences_cons_eq, Hocc.
        -- intros ([|j] & -> & Hj & Hocc); [done|].
           simpl in Hocc. rewrite occurrences_cons_eq in Hocc.
           exists j. split; [lia|]. split; [done | lia].
    + rewrite IH. split.
      * intros (j & -> & Hj & Hocc). exists (S j).
        split; [lia|]. split; [done|]. simpl. by rewrite occurrences_cons_ne.
      * intros ([|j] & -> & Hj & Hocc); [by injection Hj|].
        simpl in Hocc. rewrite occurrences_cons_ne in Hocc by done.
        exists j. split; [lia | done].
Qed.

Lemma nonzero_eq_lookup x ids n p :
  nonzero_eq x ids !! n = Some p ↔
  ids !! p = Some x ∧ occurrences x (take p ids) = n.
Proof.
  unfold nonzero_eq. rewrite nonzero_eq_from_lookup. split.
  - by intros (j & -> & Hj & Hocc).
  - intros [Hp Hocc]. by exists p.
Qed.

(** ** The span locator *)

Section LocatorProps.
Context {R : Type} `{tok : Tokenizer}.

Local Abbreviation think_id := (convert_tokens_to_ids "<think>").
Local Abbreviation end_think_id := (convert_tokens_to_ids "</think>").

Lemma locate_unfold ids :
  locate ids =
    if Nat.eqb (occurrences think_id ids) 0 || Nat.eqb (occurrences end_think_id ids) 0
    then Ok None
    else
      match nonzero_eq think_id ids !! 2 with
      | None => Err IndexError
      | Some start_idx =>
          match last (filter (λ e, start_idx < e) (nonzero_eq end_think_id ids)) with
          | None => Ok None
          | Some end_idx => Ok (Some (start_idx, end_idx))
          end
      end.
Proof.
  unfold locate. rewrite !length_nonzero_eq.
  destruct (_ || _); [done|].
  destruct (_ !! 2) as [s|]; [|done].
  destruct (filter _ _) as [|c cs] eqn:Hf; [done|].
  change (Nat.eqb (length (c :: cs)) 0) with false. cbv iota.
  destruct (last (c :: cs)) eqn:Hl; [done|].
  by apply last_None in Hl.
Qed.

(** A located region starts at the third open tag and ends at a close tag
    after it. *)
Lemma locate_Some ids s e :
  locate ids = Ok (Some (s, e)) →
  third_occurrence think_id ids s ∧ s < e ∧
  ids !! e = Some end_think_id ∧ e < length ids.
Proof.
  rewrite locate_unfold. destruct (_ || _); [done|].
  destruct (_ !! 2) as [s'|] eqn:Hs; [|done].
  destruct (last _) as [e'|] eqn:He; [|done].
  intros [= <- <-].
  apply last_Some_elem_of, list_elem_of_filter in He as [Hlt He].
  apply elem_of_nonzero_eq in He. apply nonzero_eq_lookup in Hs.
  split; [done|]. split; [done|]. split; [done|]. by eapply lookup_lt_Some.
Qed.

(** No open tag, or no close tag: no region. *)
Lemma locate_absent ids :
  occurrences think_id ids = 0 ∨ occurrences end_think_id ids = 0 →
  locate ids = Ok None.
Proof.
  rewrite locate_unfold. intros [-> | ->]; [done|].
  by rewrite orb_true_r.
Qed.

(** Fewer than three open tags while both tags occur: the index [2] is out
    of bounds. *)
Lemma locate_index_fault ids :
  1 ≤ occurrences think_id ids →
  1 ≤ occurrences end_think_id ids →
  occurrences think_id ids < 3 →
  locate ids = Err IndexError.
Proof.
  intros Ho Hc Hlt. rewrite locate_unfold.
  destruct (occurrences think_id ids) as [|n] eqn:Hn; [lia|].
  destruct (occurrences end_think_id ids) as [|m] eqn:Hm; [lia|]. simpl.
  rewrite lookup_ge_None_2; [done|].
  rewrite length_nonzero_eq. lia.
Qed.

(** The third open tag exists and no close tag lies after it: no region. *)
Lemma locate_no_close_after ids s :
  third_occurrence think_id ids s →
  (∀ e, ids !! e = Some end_think_id → e ≤ s) →
  locate ids = Ok None.
Proof.
  intros Hs%nonzero_eq_lookup Hno. rewrite locate_unfold, Hs.
  destruct (_ || _); [done|].
  replace (filter _ _) with (@nil nat); [done|].
  symmetry. apply filter_nil_Forall, Forall_forall.
  intros e He%elem_of_nonzero_eq%Hno. lia.
Qed.

(** C1 (as the code behaves): on a token sequence with at least one open
    tag and at least one close tag but fewer than three open tags, the
    locator does not produce a descriptive error: the lookup of the third
    open position raises the unchecked [IndexError], which also ends the
    processing of the example. *)
Theorem forward_example_index_fault (a : Aligner R) ids emb mask :
  1 ≤ occurrences think_id ids →
  1 ≤ occurrences end_think_id ids →
  occurrences think_id ids < 3 →
  locate ids = Err IndexError ∧
  forward_example a (ids, emb, mask) = Err IndexError.
Proof.
  intros Ho Hc Hlt. unfold forward_example.
  by rewrite (locate_index_fault ids Ho Hc Hlt).
Qed.

(** C3 (as the code behaves): on a token sequence with one or two open
    tags and with close tags that all come before every open tag, so
    that no close tag lies after the open position whichever one is
    chosen, the locator does not answer "no region": the lookup of the
    third open position raises [IndexError], and the example is not
    passed through. *)
Theorem close_before_open_index_fault (a : Aligner R) ids emb mask :
  1 ≤ occurrences think_id ids →
  occurrences think_id ids < 3 →
  1 ≤ occurrences end_think_id ids →
  (∀ s e, ids !! s = Some think_id → ids !! e = Some end_think_id → e < s) →
  locate ids = Err IndexError ∧
  locate ids ≠ Ok None ∧
  forward_example a (ids, emb, mask) = Err IndexError ∧
  forward_example a (ids, emb, mask) ≠ Ok (emb, mask).
Proof.
  intros Ho Hlt Hc _.
  assert (Hloc := locate_index_fault ids Ho Hc Hlt).
  assert (Hf : forward_example a (ids, emb, mask) = Err IndexError).
  { unfold forward_example. by rewrite Hloc. }
  rewrite Hloc, Hf. by repeat split.
Qed.

(** Where the locator does answer "no region": the third open tag exists
    and no close tag lies after it, or there is no close tag at all; the
    example is then left unchanged. *)
Lemma locate_no_close_unchanged (a : Aligner R) ids emb mask :
  1 ≤ occurrences think_id ids →
  (occurrences end_think_id ids = 0 ∨
   ∃ s, third_occurrence think_id ids s ∧
        ∀ e, ids !! e = Some end_think_id → e ≤ s) →
  locate ids = Ok None ∧
  forward_example a (ids, emb, mask) = Ok (emb, mask).
Proof.
  intros _ Hno.
  assert (Hloc : locate ids = Ok None).
  { destruct Hno as [Hc | (s & Hs & Hafter)].
    - apply locate_absent. by right.
    - by eapply locate_no_close_after. }
  split; [done|]. unfold forward_example. by rewrite Hloc.
Qed.

(** C4: a token sequence without any open tag has no region, and its
    embedding sequence and attention mask pass through unchanged. *)
Theorem no_open_tag_identity (a : Aligner R) ids emb mask :
  think_id ∉ ids →
  locate ids = Ok None ∧
  forward_example a (ids, emb, mask) = Ok (emb, mask).
Proof.
  intros Hno%occurrences_0.
  assert (Hloc : locate ids = Ok None) by (apply locate_absent; by left).
  split; [done|]. unfold forward_example. by rewrite Hloc.
Qed.
End LocatorProps.

(** ** Shapes through [unsqueeze] and [squeeze] *)

Lemma unsqueeze1_shape {A} (t : list (list A)) n h :
  shape2 n h t → shape3 n 1 h (unsqueeze1 t).
Proof.
  intros [Hn Hh]. split; [unfold unsqueeze1; by rewrite length_fmap|].
  unfold unsqueeze1. apply Forall_fmap. eapply Forall_impl; [exact Hh|].
  intros r Hr. split; [done|]. by apply Forall_singleton.
Qed.

Lemma squeeze1_shape {A} (t : list (list (list A))) n h :
  shape3 n 1 h t → ∃ out, squeeze1 t = Some out ∧ shape2 n h out.
Proof.
  revert n. induction t as [|x t IH]; intros n [Hn Hall].
  - exists []. split; [done|]. split; [done | constructor].
  - apply Forall_cons in Hall as [[Hx Hr] Hall].
    destruct x as [|r [|? ?]]; try discriminate.
    rewrite Forall_singleton in Hr.
    destruct (IH (length t)) as (out & Hout & Hlen & Hrows); [by split|].
    exists (r :: out). split.
    + unfold squeeze1 in *. simpl. rewrite Hout. reflexivity.
    + split; [simpl in *; lia | by constructor].
Qed.

(** ** The region aggregator and the reassembler *)

Section ReassemblerProps.
Context {R : Type} `{tok : Tokenizer}.

Local Abbreviation think_id := (convert_tokens_to_ids "<think>").
Local Abbreviation end_think_id := (convert_tokens_to_ids "</think>").

Lemma slice_length {A} (t : list A) a b :
  b ≤ length t → length (slice a b t) = b - a.
Proof. intros Hb. unfold slice. rewrite length_take, length_drop. lia. Qed.

Lemma slice_shape {A} (t : list (list A)) a b n h :
  shape2 n h t → b ≤ n → shape2 (b - a) h (slice a b t).
Proof.
  intros [Hn Hh] Hb. split; [apply slice_length; lia|].
  unfold slice. by apply Forall_take, Forall_drop.
Qed.

Lemma aligned_region_Some (a : Aligner R) (region_emb : list (list R)) L :
  tokens_shape a →
  attention_shape a →
  shape2 L (hidden_size a) region_emb →
  1 ≤ L →
  ∃ aligned, aligned_region a region_emb = Some aligned ∧
             shape2 (k a) (hidden_size a) aligned.
Proof.
  intros Htok Hattn Hreg HL. unfold aligned_region.
  apply squeeze1_shape, (Hattn _ _ (k a) L 1); [| |done].
  - by apply unsqueeze1_shape.
  - by apply unsqueeze1_shape.
Qed.

(** C8: for a region of [L ≥ 1] rows of width [hidden_size], the
    aggregator (the [k] learned queries attending to the region through
    an attention module that respects the shape contract of
    [nn.MultiheadAttention]) returns exactly [k] rows of width
    [hidden_size], whatever [L] is. *)
Theorem aligned_region_shape (a : Aligner R) (region_emb : list (list R)) L :
  tokens_shape a →
  attention_shape a →
  shape2 L (hidden_size a) region_emb →
  1 ≤ L →
  ∃ aligned, aligned_region a region_emb = Some aligned ∧
             length aligned = k a ∧
             Forall (λ r, length r = hidden_size a) aligned.
Proof.
  intros Htok Hattn Hreg HL.
  destruct (aligned_region_Some a region_emb L) as (aligned & Hal & Hk & Hh); try done.
  by exists aligned.
Qed.

(** C5: when the located region has [end = start + 1], the result is
    [[0:start]] followed by [[end+1:]] for the embeddings and for the
    mask alike, two positions shorter than the input; the result is the
    same for every aligner, so the attention module plays no part. *)
Theorem reassemble_empty_region (a : Aligner R) ids emb mask s e :
  locate ids = Ok (Some (s, e)) →
  e = s + 1 →
  length emb = length ids →
  length mask = length ids →
  forward_example a (ids, emb, mask) =
    Ok (take s emb ++ drop (e + 1) emb, take s mask ++ drop (e + 1) mask) ∧
  length (take s emb ++ drop (e + 1) emb) = length ids - 2 ∧
  length (take s mask ++ drop (e + 1) mask) = length ids - 2.
Proof.
  intros Hloc -> Hemb Hmask.
  destruct (locate_Some _ _ _ Hloc) as (_ & _ & _ & He).
  split.
  - unfold forward_example. rewrite Hloc. simpl.
    unfold slice. by rewrite Nat.sub_diag, take_0.
  - rewrite !length_app, !length_take, !length_drop. lia.
Qed.
(** C2 (amended): when the located region has [end > start + 1], the
    example becomes [[0:start]], the [k] aggregated rows, [[end+1:]];
    both tag positions are dropped with the region, so the output length
    is [original_length − (end − start + 1) + k], for the embeddings and
    for the mask. *)
Theorem reassemble_nonempty_length (a : Aligner R) ids emb mask s e :
  tokens_shape a →
  attention_shape a →
  shape2 (length ids) (hidden_size a) emb →
  length mask = length ids →
  locate ids = Ok (Some (s, e)) →
  s + 1 < e →
  ∃ aligned,
    aligned_region a (slice (s + 1) e emb) = Some aligned ∧
    forward_example a (ids, emb, mask) =
      Ok (take s emb ++ aligned ++ drop (e + 1) emb,
          take s mask ++ replicate (k a) 1%Z ++ drop (e + 1) mask) ∧
    length (take s emb ++ aligned ++ drop (e + 1) emb)
      = length ids - (e - s + 1) + k a ∧
    length (take s mask ++ replicate (k a) 1%Z ++ drop (e + 1) mask)
      = length ids - (e - s + 1) + k a.
Proof.
  intros Htok Hattn Hemb Hmask Hloc Hlt.
  destruct (locate_Some _ _ _ Hloc) as (_ & _ & _ & He).
  assert (Hreg : shape2 (e - (s + 1)) (hidden_size a) (slice (s + 1) e emb)).
  { eapply slice_shape; [exact Hemb | lia]. }
  destruct (aligned_region_Some a _ _ Htok Hattn Hreg) as (aligned & Hal & Hk & _); [lia|].
  exists aligned. split; [done|]. split.
  - unfold forward_example. rewrite Hloc. simpl.
    destruct Hreg as [-> _]. rewrite Hal.
    destruct (e - (s + 1)) eqn:Hd; [lia | done].
  - destruct Hemb as [Hemb _].
    rewrite !length_app, !length_take, !length_drop, length_replicate, Hk. lia.
Qed.
(** Whatever branch is taken, the reassembled mask is as long as the
    reassembled sequence: the batch padder receives matching pairs. *)
Lemma forward_example_lengths_agree (a : Aligner R) ids emb mask new_emb new_mask :
  tokens_shape a →
  attention_shape a →
  Forall (λ r, length r = hidden_size a) emb →
  length mask = length emb →
  forward_example a (ids, emb, mask) = Ok (new_emb, new_mask) →
  length new_mask = length new_emb.
Proof.
  intros Htok Hattn Hrows Hmask. unfold forward_example.
  destruct (locate ids) as [[[s e]|]|]; simpl; [| by intros [= <- <-] | done].
  destruct (Nat.eqb_spec (length (slice (s + 1) e emb)) 0) as [Hz|Hnz].
  - intros [= <- <-]. rewrite !length_app, !length_take, !length_drop. lia.
  - assert (Hreg : shape2 (length (slice (s + 1) e emb)) (hidden_size a)
                     (slice (s + 1) e emb)).
    { split; [done|]. unfold slice. by apply Forall_take, Forall_drop. }
    destruct (aligned_region_Some a _ _ Htok Hattn Hreg) as (aligned & -> & Hk & _);
      [lia|].
    intros [= <- <-].
    rewrite !length_app, !length_take, !length_drop, length_replicate, Hk. lia.
Qed.
End ReassemblerProps.

(** ** The batch padder *)

Section PadderProps.
Context {R : Type}.

Lemma cat_rows_same_length {A} (ts : list (list A)) n :
  ts ≠ [] → Forall (λ t, length t = n) ts → cat_rows ts = Ok ts.
Proof.
  intros Hne Hall. destruct ts as [|t ts']; [done|]. unfold cat_rows.
  replace (forallb _ _) with true; [done|].
  symmetry. apply forallb_forall. intros u Hu%list_elem_of_In.
  apply Nat.eqb_eq.
  rewrite Forall_forall in Hall. rewrite (Hall u Hu).
  symmetry. apply Hall. by left.
Qed.

Lemma fmap_nonempty {A B} (f : A → B) (l : list A) : l ≠ [] → f <$> l ≠ [].
Proof. intros Hne Hnil. by apply fmap_nil_inv in Hnil. Qed.

Lemma pad_example_app max_len (pad_token_emb : list R) emb mask :
  pad_example max_len pad_token_emb (emb, mask) =
    (emb ++ replicate (max_len - length emb) pad_token_emb,
     mask ++ replicate (max_len - length emb) 0%Z).
Proof.
  unfold pad_example. destruct (max_len - length emb); [|done].
  simpl. by rewrite !app_nil_r.
Qed.

Lemma pad_batch_nonempty (pad_token_emb : list R) new_list :
  new_list ≠ [] →
  pad_batch pad_token_emb new_list =
    let max_len := max_list ((λ p, length p.1) <$> new_list) in
    let padded := pad_example max_len pad_token_emb <$> new_list in
    new_embeddings ← cat_rows (fst <$> padded);
    new_attention_mask ← cat_rows (snd <$> padded);
    Ok (new_embeddings, new_attention_mask).
Proof. by destruct new_list. Qed.

Lemma padded_fst (pad_token_emb : list R) new_list :
  fst <$> (pad_example (max_list ((λ p, length p.1) <$> new_list)) pad_token_emb <$> new_list)
  = padded_embeddings pad_token_emb new_list.
Proof.
  unfold padded_embeddings. rewrite <- list_fmap_compose. apply list_fmap_ext.
  intros i [emb mask] _. unfold compose. by rewrite pad_example_app.
Qed.

Lemma padded_snd (pad_token_emb : list R) new_list :
  snd <$> (pad_example (max_list ((λ p, length p.1) <$> new_list)) pad_token_emb <$> new_list)
  = padded_masks new_list.
Proof.
  unfold padded_masks. rewrite <- list_fmap_compose. apply list_fmap_ext.
  intros i [emb mask] _. unfold compose. by rewrite pad_example_app.
Qed.

Lemma padded_lengths (pad_token_emb : list R) new_list :
  Forall (λ p, length p.2 = length p.1) new_list →
  Forall (λ e, length e = max_list ((λ p, length p.1) <$> new_list))
    (padded_embeddings pad_token_emb new_list) ∧
  Forall (λ m, length m = max_list ((λ p, length p.1) <$> new_list))
    (padded_masks new_list).
Proof.
  intros Hlen.
  assert (Hle : ∀ p, p ∈ new_list →
                 length p.1 ≤ max_list ((λ p, length p.1) <$> new_list)).
  { intros p Hp. apply max_list_elem_of_le.
    apply list_elem_of_fmap. by exists p. }
  rewrite Forall_forall in Hlen.
  split; apply Forall_fmap, Forall_forall; intros p Hp; simpl;
    rewrite length_app, length_replicate; specialize (Hle p Hp);
    specialize (Hlen p Hp); lia.
Qed.

Lemma pad_batch_Ok (pad_token_emb : list R) new_list :
  new_list ≠ [] →
  Forall (λ p, length p.2 = length p.1) new_list →
  pad_batch pad_token_emb new_list =
    Ok (padded_embeddings pad_token_emb new_list, padded_masks new_list).
Proof.
  intros Hne Hlen.
  destruct (padded_lengths pad_token_emb new_list Hlen) as [HE HM].
  rewrite pad_batch_nonempty by done. cbv zeta.
  rewrite padded_fst, padded_snd.
  assert (HneE : padded_embeddings pad_token_emb new_list ≠ []) by by apply fmap_nonempty.
  assert (HneM : padded_masks new_list ≠ []) by by apply fmap_nonempty.
  rewrite (cat_rows_same_length _ _ HneE HE). simpl.
  by rewrite (cat_rows_same_length _ _ HneM HM).
Qed.
(** [max()] of an empty list of lengths raises. *)
Lemma pad_batch_empty (pad_token_emb : list R) :
  pad_batch pad_token_emb [] = Err ValueError.
Proof. reflexivity. Qed.

(** C6: on a non-empty batch of (sequence, mask) pairs of matching
    lengths, whose embeddings all have the hidden width of the pad
    embedding, the padder returns a rectangular batch: every padded
    sequence and mask has the length of the longest input sequence and
    every embedding keeps the hidden width; below the original length
    every position keeps its embedding and its mask value, and from
    there to the end the embedding is the pad embedding and the mask
    is 0. *)
Theorem pad_batch_rectangular (pad_token_emb : list R) new_list :
  new_list ≠ [] →
  Forall (λ p, length p.2 = length p.1) new_list →
  Forall (λ p, Forall (λ r, length r = length pad_token_emb) p.1) new_list →
  ∃ new_embeddings new_attention_mask,
    pad_batch pad_token_emb new_list = Ok (new_embeddings, new_attention_mask) ∧
    length new_embeddings = length new_list ∧
    length new_attention_mask = length new_list ∧
    ∀ i emb mask, new_list !! i = Some (emb, mask) →
      ∃ e m,
        new_embeddings !! i = Some e ∧ new_attention_mask !! i = Some m ∧
        length e = batch_max_len new_list ∧
        length m = batch_max_len new_list ∧
        Forall (λ r, length r = length pad_token_emb) e ∧
        (∀ j, j < length emb → e !! j = emb !! j ∧ m !! j = mask !! j) ∧
        (∀ j, length emb ≤ j < batch_max_len new_list →
              e !! j = Some pad_token_emb ∧ m !! j = Some 0%Z).
Proof.
  intros Hne Hlen Hwidth.
  exists (padded_embeddings pad_token_emb new_list), (padded_masks new_list).
  split; [by apply pad_batch_Ok|].
  split; [unfold padded_embeddings; by rewrite length_fmap|].
  split; [unfold padded_masks; by rewrite length_fmap|].
  intros i emb mask Hi.
  destruct (padded_lengths pad_token_emb new_list Hlen) as [HE HM].
  assert (Hm : length mask = length emb).
  { rewrite Forall_forall in Hlen.
    apply (Hlen (emb, mask)). by eapply list_elem_of_lookup_2. }
  eexists _, _.
  split; [unfold padded_embeddings; by rewrite list_lookup_fmap, Hi|].
  split; [unfold padded_masks; by rewrite list_lookup_fmap, Hi|].
  simpl. fold (batch_max_len new_list).
  split; [|split; [|split; [|split]]].
  - rewrite Forall_forall in HE. apply HE. unfold padded_embeddings.
    apply list_elem_of_fmap. exists (emb, mask). split; [done|].
    by eapply list_elem_of_lookup_2.
  - rewrite Forall_forall in HM. apply HM. unfold padded_masks.
    apply list_elem_of_fmap. exists (emb, mask). split; [done|].
    by eapply list_elem_of_lookup_2.
  - apply Forall_app. split; [|by apply Forall_replicate].
    rewrite Forall_forall in Hwidth.
    apply (Hwidth (emb, mask)). by eapply list_elem_of_lookup_2.
  - intros j Hj. split; rewrite lookup_app_l; (done || lia).
  - intros j [Hj1 Hj2]. split.
    + rewrite lookup_app_r by lia. apply lookup_replicate_2. lia.
    + rewrite lookup_app_r by lia. apply lookup_replicate_2. lia.
Qed.
End PadderProps.

(** ** Label masking and collation *)

Section CollatorProps.
Context `{tok : Tokenizer}.

Lemma example_labels_length example :
  prompt_length example ≤ length (encode (full_text example)) →
  length (example_labels example) = length (encode (full_text example)).
Proof.
  intros Hp. unfold example_labels.
  rewrite length_app, length_replicate, length_drop. lia.
Qed.

(** C7: with a prompt of [p] tokens and a full text of [t ≥ p] tokens,
    the label sequence has length [t]; its first [p] positions hold the
    ignore value -100 and the other [t − p] positions hold the token ids
    of the full text at the same positions. *)
Theorem example_labels_masks_prompt example :
  prompt_length example ≤ length (encode (full_text example)) →
  length (example_labels example) = length (encode (full_text example)) ∧
  (∀ i, i < prompt_length example →
        example_labels example !! i = Some (-100)%Z) ∧
  (∀ i, prompt_length example ≤ i < length (encode (full_text example)) →
        example_labels example !! i = encode (full_text example) !! i).
Proof.
  intros Hp. split; [by apply example_labels_length|].
  unfold example_labels. split.
  - intros i Hi. rewrite lookup_app_l by (rewrite length_replicate; lia).
    by apply lookup_replicate_2.
  - intros i [Hi1 Hi2]. rewrite lookup_app_r by (rewrite length_replicate; lia).
    rewrite length_replicate, lookup_drop. f_equal. lia.
Qed.

Lemma right_pad_lookup p seqs i s :
  seqs !! i = Some s →
  right_pad p seqs !! i =
    Some (s ++ replicate (max_list (length <$> seqs) - length s) p).
Proof. intros Hi. unfold right_pad. by rewrite list_lookup_fmap, Hi. Qed.

Lemma labels_max_len batch :
  Forall (λ example,
    prompt_length example ≤ length (encode (full_text example))) batch →
  max_list (length <$> (example_labels <$> batch)) = collated_max_len batch.
Proof.
  intros Hall. unfold collated_max_len. f_equal.
  rewrite <- list_fmap_compose. apply Forall_fmap_ext_1.
  eapply Forall_impl; [exact Hall|].
  intros example Hp. by apply example_labels_length.
Qed.

(** C10: in a batch collated by a right-padding tokenizer whose pad id is
    a token id (non-negative), an example whose tokenized text is shorter
    than the longest of the batch has the pad token id, not -100, at
    every label position past its own length; and the attention mask is
    0 at a position exactly when the padded input holds the pad token id
    there (1 otherwise). *)
Theorem collated_tail_labels_are_pad `{!RightPadding tok} batch :
  (0 ≤ pad_token_id)%Z →
  Forall (λ example,
    prompt_length example ≤ length (encode (full_text example))) batch →
  (∀ i example j,
     batch !! i = Some example →
     length (encode (full_text example)) ≤ j < collated_max_len batch →
     ∃ r, labels (data_collator batch) !! i = Some r ∧
          r !! j = Some pad_token_id ∧ pad_token_id ≠ (-100)%Z) ∧
  (∀ i r j x,
     input_ids (data_collator batch) !! i = Some r →
     r !! j = Some x →
     ∃ m, attention_mask (data_collator batch) !! i = Some m ∧
          m !! j = Some (if bool_decide (x = pad_token_id) then 0%Z else 1%Z)).
Proof.
  intros Hpad Hall. split.
  - intros i example j Hi [Hj1 Hj2].
    assert (Hp : prompt_length example ≤ length (encode (full_text example))).
    { rewrite Forall_forall in Hall. apply Hall. by eapply list_elem_of_lookup_2. }
    eexists. split.
    + unfold data_collator. simpl. rewrite pad_right.
      apply right_pad_lookup. by rewrite list_lookup_fmap, Hi.
    + rewrite labels_max_len by done.
      rewrite example_labels_length by done. split; [|lia].
      rewrite lookup_app_r by (rewrite example_labels_length by done; lia).
      apply lookup_replicate_2. rewrite example_labels_length by done. lia.
  - intros i r j x Hi Hj. unfold data_collator in *. simpl in *.
    unfold ne_pad_long. rewrite list_lookup_fmap, Hi. simpl.
    eexists. split; [done|].
    rewrite list_lookup_fmap, Hj. simpl.
    by repeat case_bool_decide.
Qed.
End CollatorProps.

(** ** Merging datasets *)

Section MergeProps.
Variable train_test_split : Dataset → gmap string Dataset.

(** C9: with two datasets on disk, a difference between their field sets
    ends the script with [ValueError] and leaves the disk as it was;
    the merged dataset is written only when the two [features] are
    identical. *)
Theorem merge_requires_same_schema (disk : gmap string Stored) d1 d2 :
  disk !! "data/s1" = Some (StoredDataset d1) →
  disk !! "data/s2" = Some (StoredDataset d2) →
  (dom (features d1) ≠@{gset string} dom (features d2) →
   dataset_merge train_test_split disk = (disk, Err ValueError)) ∧
  (∀ disk', dataset_merge train_test_split disk = (disk', Ok ()) →
     features d1 = features d2 ∧
     disk' = <["data/merged" :=
                StoredDatasetDict (train_test_split (concatenate_datasets d1 d2))]> disk).
Proof.
  intros H1 H2. unfold dataset_merge, merge_steps, load_from_disk.
  rewrite H1, H2. simpl. case_bool_decide as Hf.
  - split; [done|]. by intros disk'.
  - split.
    + intros Hdom. by rewrite Hf in Hdom.
    + destruct (length (records d1 ++ records d2) <? 2); [done|].
      by intros disk' [= <-].
Qed.
End MergeProps.

(** ** The theorems at concrete inputs *)

Lemma char_tokenizer_right_padding : RightPadding char_tokenizer.
Proof. intros seqs. reflexivity. Qed.

Lemma small_aligner_tokens_shape : tokens_shape small_aligner.
Proof. split; [done|]. by repeat constructor. Qed.

Lemma small_aligner_attention_shape : attention_shape small_aligner.
Proof.
  intros q kv Lq Lk N [Hq _] [Hk Hkv] HLk. simpl in *.
  unfold first_value_attention. split; [by rewrite length_fmap|].
  apply Forall_fmap, Forall_forall. intros x Hx. simpl.
  destruct kv as [|v kv']; [simpl in Hk; lia|].
  simpl. by apply Forall_cons in Hkv as [Hv _].
Qed.

Lemma embed_shape ids : shape2 (length ids) 2 (embed ids).
Proof.
  unfold embed. split; [by rewrite length_fmap|].
  apply Forall_fmap, Forall_forall. by intros t _.
Qed.

(** The whole forward pass on a batch of two examples: scenario A, and a
    sequence whose close tag follows the third open tag directly. *)
Example forward_two_examples :
  forward (tok := char_tokenizer) small_aligner
    [embed scenario_A; embed [3; 3; 3; 9; 5; 5; 5; 5]%Z]
    [scenario_A; [3; 3; 3; 9; 5; 5; 5; 5]%Z]
    [replicate 8 1%Z; replicate 8 1%Z] [0; 0]%Z
  = Ok ([embed [5; 7; 3; 3; 9; 9; 2]%Z; embed [3; 3; 5; 5; 5; 5; 0]%Z],
        [[1; 1; 1; 1; 1; 1; 1]%Z; [1; 1; 1; 1; 1; 1; 0]%Z]).
Proof. reflexivity. Qed.

(** The failing input of C1: one open tag and one close tag. *)
Lemma forward_example_index_fault_witness :
  1 ≤ occurrences 3%Z [3; 9]%Z ∧
  1 ≤ occurrences 9%Z [3; 9]%Z ∧
  occurrences 3%Z [3; 9]%Z < 3 ∧
  locate (tok := char_tokenizer) [3; 9]%Z = Err IndexError ∧
  forward_example (tok := char_tokenizer) small_aligner
    ([3; 9]%Z, embed [3; 9]%Z, [1; 1]%Z) = Err IndexError.
Proof.
  assert (H1 : 1 ≤ occurrences 3%Z [3; 9]%Z) by (vm_compute; lia).
  assert (H2 : 1 ≤ occurrences 9%Z [3; 9]%Z) by (vm_compute; lia).
  assert (H3 : occurrences 3%Z [3; 9]%Z < 3) by (vm_compute; lia).
  repeat (split; [assumption|]).
  exact (forward_example_index_fault (tok := char_tokenizer) small_aligner
           [3; 9]%Z (embed [3; 9]%Z) [1; 1]%Z H1 H2 H3).
Defined.

(** Scenario A refutes the length formula of C2 as stated: the region is
    (4, 6), the output has 4 + k + 1 = 7 rows for k = 2, not 8 − 1 + k. *)
Lemma scenario_A_length :
  locate (tok := char_tokenizer) scenario_A = Ok (Some (4, 6)) ∧
  6 > 4 + 1 ∧
  ∃ new_emb new_mask,
    forward_example (tok := char_tokenizer) small_aligner
      (scenario_A, embed scenario_A, replicate 8 1%Z) = Ok (new_emb, new_mask) ∧
    length new_emb = 7 ∧
    length new_emb ≠ length scenario_A - (6 - 4 - 1) + k small_aligner.
Proof.
  split; [reflexivity|]. split; [lia|].
  eexists _, _. split; [reflexivity|]. split; [reflexivity|].
  vm_compute. lia.
Qed.

Lemma reassemble_nonempty_length_witness :
  tokens_shape small_aligner ∧
  attention_shape small_aligner ∧
  shape2 (length scenario_A) (hidden_size small_aligner) (embed scenario_A) ∧
  length (replicate 8 1%Z) = length scenario_A ∧
  locate (tok := char_tokenizer) scenario_A = Ok (Some (4, 6)) ∧
  4 + 1 < 6 ∧
  ∃ aligned,
    aligned_region small_aligner (slice (4 + 1) 6 (embed scenario_A)) = Some aligned ∧
    forward_example (tok := char_tokenizer) small_aligner
      (scenario_A, embed scenario_A, replicate 8 1%Z) =
      Ok (take 4 (embed scenario_A) ++ aligned ++ drop (6 + 1) (embed scenario_A),
          take 4 (replicate 8 1%Z) ++ replicate (k small_aligner) 1%Z
            ++ drop (6 + 1) (replicate 8 1%Z)) ∧
    length (take 4 (embed scenario_A) ++ aligned ++ drop (6 + 1) (embed scenario_A))
      = length scenario_A - (6 - 4 + 1) + k small_aligner ∧
    length (take 4 (replicate 8 1%Z) ++ replicate (k small_aligner) 1%Z
              ++ drop (6 + 1) (replicate 8 1%Z))
      = length scenario_A - (6 - 4 + 1) + k small_aligner.
Proof.
  assert (Hloc : locate (tok := char_tokenizer) scenario_A = Ok (Some (4, 6)))
    by reflexivity.
  assert (Hlt : 4 + 1 < 6) by lia.
  assert (Hmask : length (replicate 8 1%Z) = length scenario_A) by reflexivity.
  split; [exact small_aligner_tokens_shape|].
  split; [exact small_aligner_attention_shape|].
  split; [exact (embed_shape scenario_A)|].
  repeat (split; [assumption|]).
  exact (reassemble_nonempty_length (tok := char_tokenizer) small_aligner
           scenario_A (embed scenario_A) (replicate 8 1%Z) 4 6
           small_aligner_tokens_shape small_aligner_attention_shape
           (embed_shape scenario_A) Hmask Hloc Hlt).
Defined.

(** The failing input of C3: the only close tag before the only open
    tag. *)
Lemma close_before_open_index_fault_witness :
  1 ≤ occurrences 3%Z [9; 3]%Z ∧
  occurrences 3%Z [9; 3]%Z < 3 ∧
  1 ≤ occurrences 9%Z [9; 3]%Z ∧
  (∀ s e, [9; 3]%Z !! s = Some 3%Z → [9; 3]%Z !! e = Some 9%Z → e < s) ∧
  locate (tok := char_tokenizer) [9; 3]%Z = Err IndexError ∧
  locate (tok := char_tokenizer) [9; 3]%Z ≠ Ok None ∧
  forward_example (tok := char_tokenizer) small_aligner
    ([9; 3]%Z, embed [9; 3]%Z, [1; 1]%Z) = Err IndexError ∧
  forward_example (tok := char_tokenizer) small_aligner
    ([9; 3]%Z, embed [9; 3]%Z, [1; 1]%Z) ≠ Ok (embed [9; 3]%Z, [1; 1]%Z).
Proof.
  assert (H1 : 1 ≤ occurrences 3%Z [9; 3]%Z) by (vm_compute; lia).
  assert (H2 : occurrences 3%Z [9; 3]%Z < 3) by (vm_compute; lia).
  assert (H3 : 1 ≤ occurrences 9%Z [9; 3]%Z) by (vm_compute; lia).
  assert (H4 : ∀ s e, [9; 3]%Z !! s = Some 3%Z → [9; 3]%Z !! e = Some 9%Z → e < s).
  { intros [|[|s]] [|[|e]] Hs He; simpl in Hs, He; (lia || discriminate). }
  split; [exact H1|]. split; [exact H2|]. split; [exact H3|]. split; [exact H4|].
  exact (close_before_open_index_fault (tok := char_tokenizer) small_aligner
           [9; 3]%Z (embed [9; 3]%Z) [1; 1]%Z H1 H2 H3 H4).
Defined.

(** Three open tags, the only close tag before them. *)
Lemma locate_no_close_unchanged_witness :
  1 ≤ occurrences 3%Z [9; 3; 3; 3; 5]%Z ∧
  (∃ s, third_occurrence 3%Z [9; 3; 3; 3; 5]%Z s ∧
        ∀ e, [9; 3; 3; 3; 5]%Z !! e = Some 9%Z → e ≤ s) ∧
  locate (tok := char_tokenizer) [9; 3; 3; 3; 5]%Z = Ok None ∧
  forward_example (tok := char_tokenizer) small_aligner
    ([9; 3; 3; 3; 5]%Z, embed [9; 3; 3; 3; 5]%Z, replicate 5 1%Z)
  = Ok (embed [9; 3; 3; 3; 5]%Z, replicate 5 1%Z).
Proof.
  assert (H1 : 1 ≤ occurrences 3%Z [9; 3; 3; 3; 5]%Z) by (vm_compute; lia).
  assert (H2 : ∃ s, third_occurrence 3%Z [9; 3; 3; 3; 5]%Z s ∧
                    ∀ e, [9; 3; 3; 3; 5]%Z !! e = Some 9%Z → e ≤ s).
  { exists 3. split; [split; reflexivity|].
    intros [|[|[|[|[|e]]]]] He; simpl in He; (lia || discriminate). }
  split; [exact H1|]. split; [exact H2|].
  exact (locate_no_close_unchanged (tok := char_tokenizer) small_aligner
           [9; 3; 3; 3; 5]%Z (embed [9; 3; 3; 3; 5]%Z) (replicate 5 1%Z)
           H1 (or_intror H2)).
Defined.

(** No open tag at all, one close tag. *)
Lemma no_open_tag_identity_witness :
  (3%Z ∉ [5; 9; 2]%Z) ∧
  locate (tok := char_tokenizer) [5; 9; 2]%Z = Ok None ∧
  forward_example (tok := char_tokenizer) small_aligner
    ([5; 9; 2]%Z, embed [5; 9; 2]%Z, [1; 1; 0]%Z)
  = Ok (embed [5; 9; 2]%Z, [1; 1; 0]%Z).
Proof.
  assert (H : 3%Z ∉ [5; 9; 2]%Z).
  { intros Hin. repeat (apply elem_of_cons in Hin as [Hin|Hin]; [discriminate|]).
    by apply elem_of_nil in Hin. }
  split; [exact H|].
  exact (no_open_tag_identity (tok := char_tokenizer) small_aligner
           [5; 9; 2]%Z (embed [5; 9; 2]%Z) [1; 1; 0]%Z H).
Defined.

(** The close tag right after the third open tag. *)
Lemma reassemble_empty_region_witness :
  locate (tok := char_tokenizer) [3; 3; 3; 9; 5]%Z = Ok (Some (2, 3)) ∧
  forward_example (tok := char_tokenizer) small_aligner
    ([3; 3; 3; 9; 5]%Z, embed [3; 3; 3; 9; 5]%Z, replicate 5 1%Z)
  = Ok (take 2 (embed [3; 3; 3; 9; 5]%Z) ++ drop (3 + 1) (embed [3; 3; 3; 9; 5]%Z),
        take 2 (replicate 5 1%Z) ++ drop (3 + 1) (replicate 5 1%Z)) ∧
  length (take 2 (embed [3; 3; 3; 9; 5]%Z) ++ drop (3 + 1) (embed [3; 3; 3; 9; 5]%Z))
  = length [3; 3; 3; 9; 5]%Z - 2 ∧
  length (take 2 (replicate 5 1%Z) ++ drop (3 + 1) (replicate 5 1%Z))
  = length [3; 3; 3; 9; 5]%Z - 2.
Proof.
  split; [reflexivity|].
  apply (reassemble_empty_region (tok := char_tokenizer) small_aligner
           [3; 3; 3; 9; 5]%Z (embed [3; 3; 3; 9; 5]%Z) (replicate 5 1%Z) 2 3);
    reflexivity.
Defined.

(** A region of three rows aggregated by an aligner with [k = 2]. *)
Lemma aligned_region_shape_witness :
  tokens_shape small_aligner ∧
  attention_shape small_aligner ∧
  shape2 3 (hidden_size small_aligner) (embed [5; 6; 7]%Z) ∧
  ∃ aligned, aligned_region small_aligner (embed [5; 6; 7]%Z) = Some aligned ∧
             length aligned = k small_aligner ∧
             Forall (λ r, length r = hidden_size small_aligner) aligned.
Proof.
  split; [exact small_aligner_tokens_shape|].
  split; [exact small_aligner_attention_shape|].
  split; [exact (embed_shape [5; 6; 7]%Z)|].
  apply (aligned_region_shape small_aligner (embed [5; 6; 7]%Z) 3).
  - exact small_aligner_tokens_shape.
  - exact small_aligner_attention_shape.
  - exact (embed_shape [5; 6; 7]%Z).
  - lia.
Defined.

(** Two sequences of lengths 3 and 1, padded with the row [[0; 0]]. *)
Lemma pad_batch_rectangular_witness :
  two_sequences ≠ [] ∧
  Forall (λ p, length p.2 = length p.1) two_sequences ∧
  Forall (λ p, Forall (λ r, length r = length [0; 0]%Z) p.1) two_sequences ∧
  ∃ new_embeddings new_attention_mask,
    pad_batch [0; 0]%Z two_sequences = Ok (new_embeddings, new_attention_mask) ∧
    length new_embeddings = length two_sequences ∧
    length new_attention_mask = length two_sequences ∧
    ∀ i emb mask, two_sequences !! i = Some (emb, mask) →
      ∃ e m,
        new_embeddings !! i = Some e ∧ new_attention_mask !! i = Some m ∧
        length e = batch_max_len two_sequences ∧
        length m = batch_max_len two_sequences ∧
        Forall (λ r, length r = length [0; 0]%Z) e ∧
        (∀ j, j < length emb → e !! j = emb !! j ∧ m !! j = mask !! j) ∧
        (∀ j, length emb ≤ j < batch_max_len two_sequences →
              e !! j = Some [0; 0]%Z ∧ m !! j = Some 0%Z).
Proof.
  assert (Hne : two_sequences ≠ []) by discriminate.
  assert (Hlen : Forall (λ p, length p.2 = length p.1) two_sequences).
  { unfold two_sequences. repeat constructor. }
  assert (Hwidth :
    Forall (λ p, Forall (λ r, length r = length [0; 0]%Z) p.1) two_sequences).
  { unfold two_sequences. repeat constructor. }
  split; [exact Hne|]. split; [exact Hlen|]. split; [exact Hwidth|].
  exact (pad_batch_rectangular [0; 0]%Z two_sequences Hne Hlen Hwidth).
Defined.

(** A prompt of two tokens in a text of four tokens. *)
Example abcd_example_labels :
  example_labels (tok := char_tokenizer) abcd_example = [-100; -100; 99; 100]%Z.
Proof. reflexivity. Qed.

Lemma example_labels_masks_prompt_witness :
  prompt_length abcd_example
    ≤ length (encode (Tokenizer := char_tokenizer) (full_text abcd_example)) ∧
  length (example_labels (tok := char_tokenizer) abcd_example)
    = length (encode (Tokenizer := char_tokenizer) (full_text abcd_example)) ∧
  (∀ i, i < prompt_length abcd_example →
        example_labels (tok := char_tokenizer) abcd_example !! i = Some (-100)%Z) ∧
  (∀ i, prompt_length abcd_example ≤ i
          < length (encode (Tokenizer := char_tokenizer) (full_text abcd_example)) →
        example_labels (tok := char_tokenizer) abcd_example !! i
        = encode (Tokenizer := char_tokenizer) (full_text abcd_example) !! i).
Proof.
  assert (Hp : prompt_length abcd_example
               ≤ length (encode (Tokenizer := char_tokenizer) (full_text abcd_example)))
    by (vm_compute; lia).
  split; [exact Hp|].
  exact (example_labels_masks_prompt (tok := char_tokenizer) abcd_example Hp).
Defined.

(** Scenario C: field sets {problem, solution, logic_trajectory, answer}
    and {problem, answer}. *)
Lemma merge_requires_same_schema_witness :
  disk_AB !! "data/s1" = Some (StoredDataset dataset_A) ∧
  disk_AB !! "data/s2" = Some (StoredDataset dataset_B) ∧
  dom (features dataset_A) ≠@{gset string} dom (features dataset_B) ∧
  dataset_merge split_all_train disk_AB = (disk_AB, Err ValueError).
Proof.
  assert (H1 : disk_AB !! "data/s1" = Some (StoredDataset dataset_A)) by reflexivity.
  assert (H2 : disk_AB !! "data/s2" = Some (StoredDataset dataset_B)) by reflexivity.
  assert (Hd : dom (features dataset_A) ≠@{gset string} dom (features dataset_B)).
  { intros Heq.
    assert (Hin : "solution" ∈@{gset string} dom (features dataset_B)).
    { rewrite <- Heq. apply elem_of_dom. by eexists. }
    apply elem_of_dom in Hin as [v Hv]. discriminate Hv. }
  split; [exact H1|]. split; [exact H2|]. split; [exact Hd|].
  exact (proj1 (merge_requires_same_schema split_all_train disk_AB
                  dataset_A dataset_B H1 H2) Hd).
Defined.

(** Two examples of four and two tokens collated together. *)
Example two_examples_collated :
  data_collator (tok := char_tokenizer) two_examples =
    {| input_ids := [[97; 98; 99; 100]; [97; 98; 0; 0]]%Z;
       attention_mask := [[1; 1; 1; 1]; [1; 1; 0; 0]]%Z;
       labels := [[-100; -100; 99; 100]; [-100; 98; 0; 0]]%Z |}.
Proof. reflexivity. Qed.

Lemma collated_tail_labels_are_pad_witness :
  (0 ≤ pad_token_id (Tokenizer := char_tokenizer))%Z ∧
  Forall (λ example,
    prompt_length example
    ≤ length (encode (Tokenizer := char_tokenizer) (full_text example))) two_examples ∧
  (∀ i example j,
     two_examples !! i = Some example →
     length (encode (Tokenizer := char_tokenizer) (full_text example)) ≤ j
       < collated_max_len (tok := char_tokenizer) two_examples →
     ∃ r, labels (data_collator (tok := char_tokenizer) two_examples) !! i = Some r ∧
          r !! j = Some (pad_token_id (Tokenizer := char_tokenizer)) ∧
          pad_token_id (Tokenizer := char_tokenizer) ≠ (-100)%Z) ∧
  (∀ i r j x,
     input_ids (data_collator (tok := char_tokenizer) two_examples) !! i = Some r →
     r !! j = Some x →
     ∃ m, attention_mask (data_collator (tok := char_tokenizer) two_examples) !! i = Some m ∧
          m !! j = Some (if bool_decide (x = pad_token_id (Tokenizer := char_tokenizer))
                         then 0%Z else 1%Z)).
Proof.
  assert (Hpad : (0 ≤ pad_token_id (Tokenizer := char_tokenizer))%Z) by (simpl; lia).
  assert (Hall : Forall (λ example,
    prompt_length example
    ≤ length (encode (Tokenizer := char_tokenizer) (full_text example))) two_examples).
  { unfold two_examples. repeat constructor. }
  split; [exact Hpad|]. split; [exact Hall|].
  exact (@collated_tail_labels_are_pad char_tokenizer char_tokenizer_right_padding
           two_examples Hpad Hall).
Defined.

(** * Further properties of the aligner *)

(** ** Positions are increasing *)

Lemma nonzero_eq_from_ge i x ids :
  Forall (λ p, i ≤ p) (nonzero_eq_from i x ids).
Proof.
  apply Forall_forall. intros p (j & -> & _)%elem_of_nonzero_eq_from. lia.
Qed.

Lemma nonzero_eq_from_sorted i x ids :
  StronglySorted lt (nonzero_eq_from i x ids).
Proof.
  revert i. induction ids as [|y ys IH]; intros i; simpl; [constructor|].
  case_bool_decide; [|apply IH].
  constructor; [apply IH|].
  eapply Forall_impl; [apply (nonzero_eq_from_ge (S i))|]. intros p Hp. simpl in Hp. lia.
Qed.

Lemma sorted_filter_lt (P : nat → Prop) `{∀ x, Decision (P x)} l :
  StronglySorted lt l → StronglySorted lt (filter P l).
Proof.
  induction 1 as [|x l Hs IH Hx]; [constructor|].
  rewrite filter_cons. destruct (decide (P x)); [|done].
  constructor; [done|].
  apply Forall_forall. intros y [_ Hy]%list_elem_of_filter.
  rewrite Forall_forall in Hx. by apply Hx.
Qed.

Lemma sorted_last_max l e :
  StronglySorted lt l → last l = Some e → ∀ y, y ∈ l → y ≤ e.
Proof.
  intros Hs (l' & ->)%last_Some y Hy.
  apply elem_of_app in Hy as [Hy|Hy].
  - apply StronglySorted_app in Hs as (Hlt & _ & _).
    specialize (Hlt y e Hy). unfold lt in Hlt.
    assert (e ∈ [e]) by (by apply list_elem_of_singleton).
    specialize (Hlt H). lia.
  - apply list_elem_of_singleton in Hy. lia.
Qed.

Section LocatorMore.
Context {R : Type} `{tok : Tokenizer}.

Local Abbreviation think_id := (convert_tokens_to_ids "<think>").
Local Abbreviation end_think_id := (convert_tokens_to_ids "</think>").

Lemma occurrences_pos x ids p : ids !! p = Some x → 1 ≤ occurrences x ids.
Proof.
  intros Hp. destruct (occurrences x ids) eqn:Ho; [|lia].
  apply occurrences_0 in Ho. destruct Ho. by eapply list_elem_of_lookup_2.
Qed.

(** X1: the locator returns the region [(s, e)] exactly when [s] is the
    position of the third open tag, [e] holds a close tag after [s], and
    no close tag lies after [e]: the region runs from the third open tag
    to the last close tag of the sequence. *)
Theorem locate_Some_iff ids s e :
  locate ids = Ok (Some (s, e)) ↔
  third_occurrence think_id ids s ∧ s < e ∧ ids !! e = Some end_think_id ∧
  ∀ e', ids !! e' = Some end_think_id → e' ≤ e.
Proof.
  rewrite locate_unfold. split.
  - destruct (_ || _); [done|].
    destruct (_ !! 2) as [s'|] eqn:Hs; [|done].
    destruct (last _) as [e0|] eqn:He; [|done].
    intros [= <- <-].
    assert (Hmax := sorted_last_max _ _
      (sorted_filter_lt _ _ (nonzero_eq_from_sorted 0 end_think_id ids)) He).
    apply last_Some_elem_of, list_elem_of_filter in He as [Hlt He].
    apply elem_of_nonzero_eq in He. apply nonzero_eq_lookup in Hs.
    repeat (split; [done|]).
    intros e' He'. destruct (decide (s' < e')) as [Hlt'|]; [|lia].
    apply Hmax, list_elem_of_filter. split; [done|]. by apply elem_of_nonzero_eq.
  - intros (Hs & Hlt & He & Hmax).
    assert (Ho : 1 ≤ occurrences think_id ids) by (destruct Hs; by eapply occurrences_pos).
    assert (Hc : 1 ≤ occurrences end_think_id ids) by (by eapply occurrences_pos).
    destruct (occurrences think_id ids); [lia|].
    destruct (occurrences end_think_id ids); [lia|]. simpl.
    apply nonzero_eq_lookup in Hs. rewrite Hs.
    assert (Hin : e ∈ filter (λ e0, s < e0) (nonzero_eq end_think_id ids)).
    { apply list_elem_of_filter. split; [done|]. by apply elem_of_nonzero_eq. }
    destruct (last _) as [e0|] eqn:Hl.
    + assert (Hmax' := sorted_last_max _ _
        (sorted_filter_lt _ _ (nonzero_eq_from_sorted 0 end_think_id ids)) Hl e Hin).
      apply last_Some_elem_of, list_elem_of_filter in Hl as [_ Hl].
      apply elem_of_nonzero_eq, Hmax in Hl.
      do 3 f_equal. lia.
    + apply last_None in Hl. rewrite Hl in Hin. by apply elem_of_nil in Hin.
Qed.

(** X2: the locator fails only through the out-of-bounds lookup of the
    third open position, and that happens exactly when the sequence has
    one or two open tags together with at least one close tag. *)
Theorem locate_Err_iff ids ex :
  locate ids = Err ex ↔
  ex = IndexError ∧
  1 ≤ occurrences think_id ids < 3 ∧ 1 ≤ occurrences end_think_id ids.
Proof.
  split.
  - rewrite locate_unfold.
    destruct (occurrences think_id ids) as [|n] eqn:Ho; [done|].
    destruct (occurrences end_think_id ids) as [|m] eqn:Hc; [done|]. simpl.
    destruct (_ !! 2) as [s|] eqn:Hs.
    + by destruct (last _).
    + intros [= <-]. apply lookup_ge_None_1 in Hs.
      rewrite length_nonzero_eq, Ho in Hs. split; [done|]. lia.
  - intros (-> & [H1 H2] & H3). by apply locate_index_fault.
Qed.

(** X3: a sequence is left without a region (and so unchanged) exactly
    when it has no open tag, or no close tag, or a third open tag with
    no close tag after it. *)
Theorem locate_None_iff ids :
  locate ids = Ok None ↔
  occurrences think_id ids = 0 ∨ occurrences end_think_id ids = 0 ∨
  ∃ s, third_occurrence think_id ids s ∧
       ∀ e, ids !! e = Some end_think_id → e ≤ s.
Proof.
  split.
  - rewrite locate_unfold.
    destruct (occurrences think_id ids) as [|n] eqn:Ho; [by left|].
    destruct (occurrences end_think_id ids) as [|m] eqn:Hc; [by right; left|]. simpl.
    destruct (_ !! 2) as [s|] eqn:Hs; [|done].
    destruct (last _) as [e0|] eqn:He; [done|]. intros _.
    right; right. exists s. split; [by apply nonzero_eq_lookup|].
    intros e Hclose. apply last_None in He.
    destruct (decide (s < e)) as [Hlt|]; [|lia].
    assert (Hin : e ∈ filter (λ e0, s < e0) (nonzero_eq end_think_id ids)).
    { apply list_elem_of_filter. split; [done|]. by apply elem_of_nonzero_eq. }
    rewrite He in Hin. by apply elem_of_nil in Hin.
  - intros [H|[H|(s & Hs & Hno)]].
    + apply locate_absent. by left.
    + apply locate_absent. by right.
    + by eapply locate_no_close_after.
Qed.
End LocatorMore.

(** ** The loop over the batch *)

Lemma for_each_Ok {A B} (f : A → result B) l ys :
  for_each f l = Ok ys ↔ Forall2 (λ x y, f x = Ok y) l ys.
Proof.
  revert ys. induction l as [|x l IH]; intros ys; simpl.
  - split; [intros [= <-]; constructor | by intros ->%Forall2_nil_inv_l].
  - destruct (f x) as [y|e] eqn:Hx; simpl.
    + destruct (for_each f l) as [ys'|e] eqn:Hl; simpl.
      * split.
        -- intros [= <-]. constructor; [done | by apply IH].
        -- intros (y' & ys'' & Hy & Hys & ->)%Forall2_cons_inv_l.
           apply IH in Hys. congruence.
      * split; [done|].
        intros (y' & ys'' & Hy & Hys & ->)%Forall2_cons_inv_l.
        apply IH in Hys. done.
    + split; [done|].
      intros (y' & ys'' & Hy & Hys & ->)%Forall2_cons_inv_l. congruence.
Qed.

Lemma for_each_total {A B} (f : A → result B) l :
  Forall (λ x, ∃ y, f x = Ok y) l → ∃ ys, for_each f l = Ok ys.
Proof.
  induction 1 as [|x l [y Hy] _ [ys Hys]]; [by exists []|].
  exists (y :: ys). simpl. by rewrite Hy, Hys.
Qed.

Lemma for_each_Err {A B} (f : A → result B) l e :
  Forall (λ x, (∃ y, f x = Ok y) ∨ f x = Err e) l →
  Exists (λ x, f x = Err e) l →
  for_each f l = Err e.
Proof.
  induction 1 as [|x l Hx Hall IH]; intros Hex; [by apply Exists_nil in Hex|].
  simpl. destruct Hx as [[y Hy]|Hx]; [|by rewrite Hx].
  rewrite Hy. simpl. apply Exists_cons in Hex as [Hex|Hex]; [congruence|].
  by rewrite (IH Hex).
Qed.

Lemma for_each_Err_inv {A B} (f : A → result B) l e :
  for_each f l = Err e → Exists (λ x, f x = Err e) l.
Proof.
  induction l as [|x l IH]; simpl; [done|].
  destruct (f x) as [y|e'] eqn:Hx; simpl.
  - destruct (for_each f l) as [ys|e'']; simpl; [done|].
    intros [= ->]. right. by apply IH.
  - intros [= ->]. by left.
Qed.

Lemma cat_rows_Err {A} (ts : list (list A)) e :
  cat_rows ts = Err e → e = RuntimeError.
Proof.
  unfold cat_rows. destruct ts; [by intros [= <-]|].
  destruct (forallb _ _); [done | by intros [= <-]].
Qed.

Section ForwardProps.
Context {R : Type} `{tok : Tokenizer}.

Local Abbreviation think_id := (convert_tokens_to_ids "<think>").
Local Abbreviation end_think_id := (convert_tokens_to_ids "</think>").

Lemma locate_Err_inv ids ex :
  locate ids = Err ex → ex = IndexError ∧ faulty ids.
Proof.
  rewrite locate_unfold. unfold faulty.
  destruct (occurrences think_id ids) as [|n] eqn:Ho; [done|].
  destruct (occurrences end_think_id ids) as [|m] eqn:Hc; [done|]. simpl.
  destruct (_ !! 2) as [s|] eqn:Hs; [by destruct (last _)|].
  intros [= <-]. apply lookup_ge_None_1 in Hs.
  rewrite length_nonzero_eq, Ho in Hs. split; [done|]. lia.
Qed.

Lemma locate_total ids :
  ¬ faulty ids → ∃ loc, locate ids = Ok loc.
Proof.
  intros Hnf. destruct (locate ids) as [loc|ex] eqn:Hl; [by exists loc|].
  by apply locate_Err_inv in Hl as [_ Hfa].
Qed.

Lemma forward_example_Err (a : Aligner R) ids emb mask ex :
  tokens_shape a →
  attention_shape a →
  Forall (λ r, length r = hidden_size a) emb →
  forward_example a (ids, emb, mask) = Err ex →
  locate ids = Err ex.
Proof.
  intros Htok Hattn Hrows. unfold forward_example.
  destruct (locate ids) as [[[s e]|]|]; simpl; [| by intros [=] | by intros [= ->]].
  destruct (Nat.eqb_spec (length (slice (s + 1) e emb)) 0) as [Hz|Hnz]; [done|].
  assert (Hreg : shape2 (length (slice (s + 1) e emb)) (hidden_size a)
                   (slice (s + 1) e emb)).
  { split; [done|]. unfold slice. by apply Forall_take, Forall_drop. }
  destruct (aligned_region_Some a _ _ Htok Hattn Hreg) as (aligned & -> & _); [lia|].
  done.
Qed.

Lemma forward_example_total (a : Aligner R) ids emb mask :
  tokens_shape a →
  attention_shape a →
  Forall (λ r, length r = hidden_size a) emb →
  ¬ faulty ids →
  ∃ out, forward_example a (ids, emb, mask) = Ok out.
Proof.
  intros Htok Hattn Hrows Hnf.
  destruct (forward_example a (ids, emb, mask)) as [out|ex] eqn:Hf; [by exists out|].
  apply forward_example_Err in Hf; [|done..].
  destruct (locate_total ids Hnf) as [loc Hloc]. congruence.
Qed.

(** X4: with an attention module that respects the shape contract, the
    processing of one example fails only with [IndexError], and exactly
    on a sequence with one or two open tags and at least one close tag. *)
Theorem forward_example_Err_iff (a : Aligner R) ids emb mask ex :
  tokens_shape a →
  attention_shape a →
  Forall (λ r, length r = hidden_size a) emb →
  forward_example a (ids, emb, mask) = Err ex ↔ ex = IndexError ∧ faulty ids.
Proof.
  intros Htok Hattn Hrows. split.
  - intros Hf%forward_example_Err; [|done..]. by apply locate_Err_inv.
  - intros (-> & [H1 H2] & H3). unfold forward_example.
    by rewrite (locate_index_fault ids H1 H3 H2).
Qed.
End ForwardProps.

(** ** The whole forward pass *)

Lemma pad_batch_Err {R} (pad_token_emb : list R) new_list e :
  pad_batch pad_token_emb new_list = Err e →
  (e = ValueError ∧ new_list = []) ∨ (e = RuntimeError ∧ new_list ≠ []).
Proof.
  destruct new_list as [|p l]; [intros [= <-]; by left|].
  rewrite pad_batch_nonempty by done. cbv zeta. unfold mbind, result_bind.
  destruct (cat_rows (_.*1)) as [E|e1] eqn:H1.
  - destruct (cat_rows (_.*2)) as [M|e2] eqn:H2; [done|].
    intros [= <-]. right. split; [by eapply cat_rows_Err | done].
  - intros [= <-]. right. split; [by eapply cat_rows_Err | done].
Qed.

Lemma cat_rows_Ok {A} (ts ts' : list (list A)) :
  cat_rows ts = Ok ts' →
  ts' = ts ∧ ts ≠ [] ∧ ∃ n, Forall (λ t, length t = n) ts.
Proof.
  unfold cat_rows. destruct ts as [|t ts0] eqn:Hts; [done|]. rewrite <- Hts.
  destruct (forallb _ _) eqn:Hall; [|done]. intros [= <-].
  split; [done|]. split; [by rewrite Hts|]. exists (length t).
  apply Forall_forall. intros u Hu%list_elem_of_In.
  rewrite forallb_forall in Hall. by apply Nat.eqb_eq, Hall.
Qed.

Lemma pad_batch_rectangular_id {R} (pad_token_emb : list R) new_list n m :
  new_list ≠ [] →
  Forall (λ p, length p.1 = n) new_list →
  Forall (λ p, length p.2 = m) new_list →
  pad_batch pad_token_emb new_list = Ok (new_list.*1, new_list.*2).
Proof.
  intros Hne Hn Hm.
  assert (Hmax : max_list ((λ p : list (list R) * list Z, length p.1) <$> new_list) = n).
  { destruct new_list as [|p l]; [done|].
    apply Forall_cons in Hn as [Hp Hn]. simpl. rewrite Hp.
    clear Hne Hp Hm. induction Hn as [|q l Hq _ IH]; simpl; [lia|]. rewrite Hq. lia. }
  assert (HE : padded_embeddings pad_token_emb new_list = new_list.*1).
  { unfold padded_embeddings. rewrite Hmax. apply Forall_fmap_ext_1.
    eapply Forall_impl; [exact Hn|]. intros p ->.
    by rewrite Nat.sub_diag, app_nil_r. }
  assert (HM : padded_masks new_list = new_list.*2).
  { unfold padded_masks. rewrite Hmax. apply Forall_fmap_ext_1.
    eapply Forall_impl; [exact Hn|]. intros p ->.
    by rewrite Nat.sub_diag, app_nil_r. }
  rewrite pad_batch_nonempty by done. cbv zeta.
  rewrite padded_fst, padded_snd, HE, HM.
  rewrite (cat_rows_same_length (new_list.*1) n); [|by apply fmap_nonempty | apply Forall_fmap; exact Hn].
  simpl.
  rewrite (cat_rows_same_length (new_list.*2) m); [done | by apply fmap_nonempty | apply Forall_fmap; exact Hm].
Qed.

Lemma zip3_proj {A B C} (I : list A) (E : list B) (M : list C) :
  length I = length E →
  (λ x, (x.1.2, x.2)) <$> zip (zip I E) M = zip E M.
Proof.
  revert E M. induction I as [|i I IH]; intros [|e E] [|m M] Hl; simpl in *; try done.
  f_equal. apply IH. lia.
Qed.

Section ForwardBatch.
Context {R : Type} `{tok : Tokenizer}.

Local Abbreviation think_id := (convert_tokens_to_ids "<think>").
Local Abbreviation end_think_id := (convert_tokens_to_ids "</think>").

Lemma batch_elem n h (embeddings : list (list (list R))) input_ids attention_mask
    ids emb mask :
  batch_shape n h embeddings input_ids attention_mask →
  (ids, emb, mask) ∈ zip (zip input_ids embeddings) attention_mask →
  ids ∈ input_ids ∧ shape2 n h emb ∧ length mask = n.
Proof.
  intros (_ & _ & HE & _ & HM) Hin.
  assert (H1 := elem_of_zip_l _ _ _ _ Hin). assert (H2 := elem_of_zip_r _ _ _ _ Hin).
  assert (H3 := elem_of_zip_l _ _ _ _ H1). assert (H4 := elem_of_zip_r _ _ _ _ H1).
  rewrite Forall_forall in HE. rewrite Forall_forall in HM.
  split; [done|]. split; [by apply HE | by apply HM].
Qed.

Lemma batch_length n h (embeddings : list (list (list R))) input_ids attention_mask :
  batch_shape n h embeddings input_ids attention_mask →
  length (zip (zip input_ids embeddings) attention_mask) = length embeddings.
Proof. intros (H1 & H2 & _). rewrite !length_zip. lia. Qed.

Lemma forward_example_Err_kind (a : Aligner R) x ex :
  forward_example a x = Err ex → ex = IndexError ∨ ex = RuntimeError.
Proof.
  destruct x as [[ids emb] mask]. unfold forward_example.
  destruct (locate ids) as [[[s e]|]|e0] eqn:Hl; simpl; [| done |].
  - destruct (Nat.eqb _ 0); [done|]. destruct (aligned_region _ _); [done|].
    intros [= <-]. by right.
  - intros [= <-]. apply locate_Err_inv in Hl as [-> _]. by left.
Qed.

Lemma forward_example_rows (a : Aligner R) ids emb mask new_emb new_mask :
  tokens_shape a →
  attention_shape a →
  Forall (λ r, length r = hidden_size a) emb →
  forward_example a (ids, emb, mask) = Ok (new_emb, new_mask) →
  Forall (λ r, length r = hidden_size a) new_emb.
Proof.
  intros Htok Hattn Hrows. unfold forward_example.
  destruct (locate ids) as [[[s e]|]|]; simpl; [| by intros [= <- <-] | done].
  destruct (Nat.eqb_spec (length (slice (s + 1) e emb)) 0) as [Hz|Hnz].
  - intros [= <- <-]. apply Forall_app. split; [by apply Forall_take | by apply Forall_drop].
  - assert (Hreg : shape2 (length (slice (s + 1) e emb)) (hidden_size a)
                     (slice (s + 1) e emb)).
    { split; [done|]. unfold slice. by apply Forall_take, Forall_drop. }
    destruct (aligned_region_Some a _ _ Htok Hattn Hreg) as (aligned & -> & _ & Hal);
      [lia|].
    intros [= <- <-]. apply Forall_app. split; [by apply Forall_take|].
    apply Forall_app. split; [done | by apply Forall_drop].
Qed.

Lemma max_list_le l B : Forall (λ x, x ≤ B) l → max_list l ≤ B.
Proof. induction 1 as [|x l Hx _ IH]; simpl; lia. Qed.

Lemma forward_example_length_bound (a : Aligner R) ids emb mask new_emb new_mask n :
  tokens_shape a →
  attention_shape a →
  shape2 n (hidden_size a) emb →
  forward_example a (ids, emb, mask) = Ok (new_emb, new_mask) →
  length new_emb ≤ n `max` (n + k a - 2).
Proof.
  intros Htok Hattn [Hn Hrows]. unfold forward_example.
  destruct (locate ids) as [[[s e]|]|] eqn:Hloc; simpl;
    [| intros [= <- <-]; lia | done].
  apply locate_Some in Hloc as (_ & Hlt & _).
  destruct (Nat.eqb_spec (length (slice (s + 1) e emb)) 0) as [Hz|Hnz].
  - intros [= <- <-]. rewrite length_app, length_take, length_drop. lia.
  - assert (Hreg : shape2 (length (slice (s + 1) e emb)) (hidden_size a)
                     (slice (s + 1) e emb)).
    { split; [done|]. unfold slice. by apply Forall_take, Forall_drop. }
    destruct (aligned_region_Some a _ _ Htok Hattn Hreg) as (aligned & -> & Hk & _);
      [lia|].
    intros [= <- <-]. rewrite !length_app, length_take, length_drop, Hk.
    unfold slice in Hnz. rewrite length_take, length_drop in Hnz. lia.
Qed.

Lemma forward_Ok_shape (a : Aligner R) embeddings input_ids attention_mask
    pad_token_emb n :
  tokens_shape a →
  attention_shape a →
  batch_shape n (hidden_size a) embeddings input_ids attention_mask →
  length pad_token_emb = hidden_size a →
  embeddings ≠ [] →
  Forall (λ ids, ¬ faulty ids) input_ids →
  ∃ new_embeddings new_attention_mask w,
    forward a embeddings input_ids attention_mask pad_token_emb
      = Ok (new_embeddings, new_attention_mask) ∧
    shape3 (length embeddings) w (hidden_size a) new_embeddings ∧
    shape2 (length embeddings) w new_attention_mask ∧
    w ≤ n `max` (n + k a - 2).
Proof.
  intros Htok Hattn Hshape Hpad Hne Hnf.
  set (batch := zip (zip input_ids embeddings) attention_mask).
  assert (Hlenb : length batch = length embeddings) by by eapply batch_length.
  assert (Htotal : Forall (λ x, ∃ y, forward_example a x = Ok y) batch).
  { apply Forall_forall. intros [[ids emb] mask] Hin.
    destruct (batch_elem _ _ _ _ _ _ _ _ Hshape Hin) as (Hids & [_ Hrows] & _).
    apply forward_example_total; try done.
    rewrite Forall_forall in Hnf. by apply Hnf. }
  destruct (for_each_total _ _ Htotal) as [new_list Hfe].
  assert (HF2 := proj1 (for_each_Ok _ _ _) Hfe).
  assert (Hagree : Forall (λ p, length p.2 = length p.1) new_list).
  { eapply Forall2_Forall_r; [exact HF2|].
    apply Forall_forall. intros [[ids emb] mask] Hin [new_emb new_mask] Hy.
    destruct (batch_elem _ _ _ _ _ _ _ _ Hshape Hin) as (_ & [Hl Hrows] & Hm).
    simpl. eapply forward_example_lengths_agree; try done. lia. }
  assert (Hwidth : Forall (λ p, Forall (λ r, length r = hidden_size a) p.1) new_list).
  { eapply Forall2_Forall_r; [exact HF2|].
    apply Forall_forall. intros [[ids emb] mask] Hin [new_emb new_mask] Hy.
    destruct (batch_elem _ _ _ _ _ _ _ _ Hshape Hin) as (_ & [Hl Hrows] & Hm).
    simpl. by eapply forward_example_rows. }
  assert (Hnew : new_list ≠ []).
  { apply Forall2_length in HF2. intros ->. simpl in HF2.
    destruct embeddings; [done | simpl in *; lia]. }
  destruct (padded_lengths pad_token_emb new_list Hagree) as [HE HM].
  exists (padded_embeddings pad_token_emb new_list), (padded_masks new_list),
    (max_list ((λ p, length p.1) <$> new_list)).
  split.
  { unfold forward. fold batch. rewrite Hfe. simpl. by apply pad_batch_Ok. }
  assert (Hbound : Forall (λ p, length p.1 ≤ n `max` (n + k a - 2)) new_list).
  { eapply Forall2_Forall_r; [exact HF2|].
    apply Forall_forall. intros [[ids emb] mask] Hin [new_emb new_mask] Hy.
    destruct (batch_elem _ _ _ _ _ _ _ _ Hshape Hin) as (_ & Hsh & Hm).
    simpl. by eapply forward_example_length_bound. }
  apply Forall2_length in HF2.
  split; [split|split; [split|]].
  - unfold padded_embeddings. rewrite length_fmap. lia.
  - apply Forall_forall. intros e He. split.
    + rewrite Forall_forall in HE. by apply HE.
    + unfold padded_embeddings in He.
      apply list_elem_of_fmap in He as (p & -> & Hp).
      rewrite Forall_forall in Hwidth. apply Forall_app. split; [by apply Hwidth|].
      apply Forall_replicate. done.
  - unfold padded_masks. rewrite length_fmap. lia.
  - done.
  - apply max_list_le, Forall_fmap. exact Hbound.
Qed.

(** X5: on input tensors of shapes [(B, n, h)], [(B, n)], [(B, n)] with
    [B ≥ 1] and a pad embedding of width [h], when no example has one or
    two open tags together with a close tag, the forward pass succeeds
    and returns tensors of shapes [(B, w, h)] and [(B, w)] for one
    common length [w]. *)
Theorem forward_rectangular (a : Aligner R) embeddings input_ids attention_mask
    pad_token_emb n :
  tokens_shape a →
  attention_shape a →
  batch_shape n (hidden_size a) embeddings input_ids attention_mask →
  length pad_token_emb = hidden_size a →
  embeddings ≠ [] →
  Forall (λ ids, ¬ faulty ids) input_ids →
  ∃ new_embeddings new_attention_mask w,
    forward a embeddings input_ids attention_mask pad_token_emb
      = Ok (new_embeddings, new_attention_mask) ∧
    length new_embeddings = length embeddings ∧
    Forall (λ e, length e = w ∧ Forall (λ r, length r = hidden_size a) e) new_embeddings ∧
    length new_attention_mask = length embeddings ∧
    Forall (λ m, length m = w) new_attention_mask.
Proof.
  intros Htok Hattn Hshape Hpad Hne Hnf.
  destruct (forward_Ok_shape a _ _ _ _ n Htok Hattn Hshape Hpad Hne Hnf)
    as (E & M & w & Hf & [HlE HE] & [HlM HM] & _).
  exists E, M, w. by repeat split.
Qed.

(** X26: under the same conditions no returned sequence is longer than
    the larger of [n] and [n + k - 2]: a located region always gives up
    its two tags, so an example grows by at most [k - 2] positions. *)
Theorem forward_length_bound (a : Aligner R) embeddings input_ids attention_mask
    pad_token_emb n new_embeddings new_attention_mask :
  tokens_shape a →
  attention_shape a →
  batch_shape n (hidden_size a) embeddings input_ids attention_mask →
  length pad_token_emb = hidden_size a →
  embeddings ≠ [] →
  Forall (λ ids, ¬ faulty ids) input_ids →
  forward a embeddings input_ids attention_mask pad_token_emb
    = Ok (new_embeddings, new_attention_mask) →
  Forall (λ e, length e ≤ n `max` (n + k a - 2)) new_embeddings ∧
  Forall (λ m, length m ≤ n `max` (n + k a - 2)) new_attention_mask.
Proof.
  intros Htok Hattn Hshape Hpad Hne Hnf Hf.
  destruct (forward_Ok_shape a _ _ _ _ n Htok Hattn Hshape Hpad Hne Hnf)
    as (E & M & w & Hf' & [_ HE] & [_ HM] & Hw).
  rewrite Hf in Hf'. injection Hf' as -> ->. split.
  - eapply Forall_impl; [exact HE|]. intros e [He _]. lia.
  - eapply Forall_impl; [exact HM|]. intros m Hm. simpl in Hm. lia.
Qed.

(** X6: with an attention module that respects the shape contract, one
    example with one or two open tags and at least one close tag makes the
    forward pass of the whole batch end with [IndexError]. *)
Theorem forward_faulty_aborts (a : Aligner R) embeddings input_ids attention_mask
    pad_token_emb n :
  tokens_shape a →
  attention_shape a →
  batch_shape n (hidden_size a) embeddings input_ids attention_mask →
  Exists faulty input_ids →
  forward a embeddings input_ids attention_mask pad_token_emb = Err IndexError.
Proof.
  intros Htok Hattn Hshape Hex.
  set (batch := zip (zip input_ids embeddings) attention_mask).
  assert (Hfe : for_each (forward_example a) batch = Err IndexError).
  { apply for_each_Err.
    - apply Forall_forall. intros [[ids emb] mask] Hin.
      destruct (batch_elem _ _ _ _ _ _ _ _ Hshape Hin) as (_ & [_ Hrows] & _).
      destruct (forward_example a (ids, emb, mask)) as [y|ex] eqn:Hf; [left; by exists y|].
      right. apply forward_example_Err in Hf; [|done..].
      by apply locate_Err_inv in Hf as [-> _].
    - apply Exists_exists in Hex as (ids & Hin & [[H1 H2] H3]).
      apply list_elem_of_lookup in Hin as [i Hi].
      destruct Hshape as (HlI & HlM & _).
      destruct (lookup_lt_is_Some_2 embeddings i) as [emb Hemb].
      { rewrite <- HlI. by eapply lookup_lt_Some. }
      destruct (lookup_lt_is_Some_2 attention_mask i) as [mask Hmask].
      { rewrite HlM, <- HlI. by eapply lookup_lt_Some. }
      apply Exists_exists. exists (ids, emb, mask). split.
      + apply list_elem_of_lookup. exists i. unfold batch.
        apply lookup_zip_Some. split; [|done]. by apply lookup_zip_Some.
      + unfold forward_example. by rewrite (locate_index_fault ids H1 H3 H2). }
  unfold forward. fold batch. by rewrite Hfe.
Qed.

(** X7: a non-empty batch in which every example lacks the open tag or
    lacks the close tag passes through the forward pass unchanged: the
    result is the input embeddings and the input attention mask. *)
Theorem forward_no_region_identity (a : Aligner R) embeddings input_ids attention_mask
    pad_token_emb n h :
  batch_shape n h embeddings input_ids attention_mask →
  embeddings ≠ [] →
  Forall (λ ids, think_id ∉ ids ∨ end_think_id ∉ ids) input_ids →
  forward a embeddings input_ids attention_mask pad_token_emb
    = Ok (embeddings, attention_mask).
Proof.
  intros Hshape Hne Hno.
  set (batch := zip (zip input_ids embeddings) attention_mask).
  assert (Hfe : for_each (forward_example a) batch = Ok (zip embeddings attention_mask)).
  { apply for_each_Ok. destruct Hshape as (HlI & _).
    rewrite <- (zip3_proj input_ids embeddings attention_mask HlI). fold batch.
    apply Forall2_fmap_r, Forall_Forall2_diag, Forall_forall.
    intros [[ids emb] mask] Hin. simpl.
    assert (Hids : ids ∈ input_ids).
    { eapply elem_of_zip_l, elem_of_zip_l, Hin. }
    rewrite Forall_forall in Hno. specialize (Hno ids Hids).
    unfold forward_example. rewrite locate_absent; [done|].
    by rewrite !occurrences_0. }
  unfold forward. fold batch. rewrite Hfe. simpl.
  destruct Hshape as (HlI & HlM & HE & _ & HM).
  rewrite (pad_batch_rectangular_id _ _ n n).
  - rewrite fst_zip, snd_zip by lia. done.
  - intros [?|?]%zip_nil_inv; [done|]. subst. destruct embeddings; [done | simpl in *; lia].
  - apply Forall_forall. intros [emb mask] Hin. simpl.
    rewrite Forall_forall in HE. apply (HE emb). by eapply elem_of_zip_l.
  - apply Forall_forall. intros [emb mask] Hin. simpl.
    rewrite Forall_forall in HM. apply (HM mask). by eapply elem_of_zip_r.
Qed.

(** X8: padding is idempotent: padding again what the padder returned
    gives the same batch. *)
Theorem pad_batch_idempotent (pad_token_emb : list R) new_list E M :
  pad_batch pad_token_emb new_list = Ok (E, M) →
  pad_batch pad_token_emb (zip E M) = Ok (E, M).
Proof.
  intros Hp. destruct new_list as [|p l]; [done|].
  rewrite pad_batch_nonempty in Hp by done. cbv zeta in Hp.
  unfold mbind, result_bind in Hp.
  destruct (cat_rows (_.*1)) as [E'|] eqn:H1; [|done].
  destruct (cat_rows (_.*2)) as [M'|] eqn:H2; [|done].
  injection Hp as -> ->.
  apply cat_rows_Ok in H1 as (HE & HneE & n & HnE).
  apply cat_rows_Ok in H2 as (HM & HneM & m & HnM).
  assert (Hlen : length E = length M) by (subst E M; by rewrite !length_fmap).
  rewrite <- HE in HnE, HneE. rewrite <- HM in HnM, HneM.
  rewrite (pad_batch_rectangular_id _ _ n m).
  - by rewrite fst_zip, snd_zip by lia.
  - intros [?|?]%zip_nil_inv; done.
  - apply Forall_forall. intros [e0 m0] Hin. simpl.
    rewrite Forall_forall in HnE. apply HnE. by eapply elem_of_zip_l.
  - apply Forall_forall. intros [e0 m0] Hin. simpl.
    rewrite Forall_forall in HnM. apply HnM. by eapply elem_of_zip_r.
Qed.

(** X9: the forward pass ends with [ValueError] exactly when the batch is
    empty (the maximum of no lengths). *)
Theorem forward_ValueError_iff (a : Aligner R) embeddings input_ids attention_mask
    pad_token_emb :
  length input_ids = length embeddings →
  length attention_mask = length embeddings →
  forward a embeddings input_ids attention_mask pad_token_emb = Err ValueError
  ↔ embeddings = [].
Proof.
  intros HlI HlM. split.
  - unfold forward.
    destruct (for_each _ _) as [new_list|e] eqn:Hfe; simpl.
    + intros [[_ ->]|[? _]]%pad_batch_Err; [|done].
      apply for_each_Ok, Forall2_length in Hfe. rewrite !length_zip in Hfe. simpl in Hfe.
      destruct embeddings; [done | simpl in *; lia].
    + intros [= ->]. apply for_each_Err_inv, Exists_exists in Hfe as (x & _ & Hx).
      by apply forward_example_Err_kind in Hx as [?|?].
  - intros ->. destruct input_ids; [|done]. reflexivity.
Qed.
End ForwardBatch.

(** ** The forward pass at concrete batches *)

Lemma embed_batch_shape (input_ids masks : list (list Z)) n :
  Forall (λ ids, length ids = n) input_ids →
  Forall (λ m, length m = n) masks →
  length masks = length input_ids →
  batch_shape n 2 (embed <$> input_ids) input_ids masks.
Proof.
  intros Hall Hm Hl. unfold batch_shape. rewrite !length_fmap.
  split; [done|]. split; [done|]. split; [|by split].
  apply Forall_fmap. eapply Forall_impl; [exact Hall|].
  intros ids <-. apply embed_shape.
Qed.

Lemma forward_example_Err_iff_witness :
  tokens_shape small_aligner ∧
  attention_shape small_aligner ∧
  Forall (λ r, length r = hidden_size small_aligner) (embed [3; 9]%Z) ∧
  (forward_example (tok := char_tokenizer) small_aligner
     ([3; 9]%Z, embed [3; 9]%Z, [1; 1]%Z) = Err IndexError
   ↔ IndexError = IndexError ∧ faulty (tok := char_tokenizer) [3; 9]%Z).
Proof.
  assert (Hrows : Forall (λ r, length r = hidden_size small_aligner) (embed [3; 9]%Z))
    by (by repeat constructor).
  split; [exact small_aligner_tokens_shape|].
  split; [exact small_aligner_attention_shape|].
  split; [exact Hrows|].
  exact (forward_example_Err_iff (tok := char_tokenizer) small_aligner
           [3; 9]%Z (embed [3; 9]%Z) [1; 1]%Z IndexError
           small_aligner_tokens_shape small_aligner_attention_shape Hrows).
Defined.

Lemma forward_rectangular_witness :
  tokens_shape small_aligner ∧
  attention_shape small_aligner ∧
  batch_shape 8 (hidden_size small_aligner)
    (embed <$> region_batch) region_batch ones_masks ∧
  length [0; 0]%Z = hidden_size small_aligner ∧
  embed <$> region_batch ≠ [] ∧
  Forall (λ ids, ¬ faulty (tok := char_tokenizer) ids) region_batch ∧
  ∃ new_embeddings new_attention_mask w,
    forward (tok := char_tokenizer) small_aligner (embed <$> region_batch)
      region_batch ones_masks [0; 0]%Z
      = Ok (new_embeddings, new_attention_mask) ∧
    length new_embeddings = length (embed <$> region_batch) ∧
    Forall (λ e, length e = w ∧ Forall (λ r, length r = hidden_size small_aligner) e)
      new_embeddings ∧
    length new_attention_mask = length (embed <$> region_batch) ∧
    Forall (λ m, length m = w) new_attention_mask.
Proof.
  assert (Hshape : batch_shape 8 (hidden_size small_aligner)
    (embed <$> region_batch) region_batch ones_masks).
  { apply embed_batch_shape; by repeat constructor. }
  assert (Hne : embed <$> region_batch ≠ []) by discriminate.
  assert (Hnf : Forall (λ ids, ¬ faulty (tok := char_tokenizer) ids) region_batch).
  { repeat constructor; unfold faulty; vm_compute; lia. }
  split; [exact small_aligner_tokens_shape|].
  split; [exact small_aligner_attention_shape|].
  split; [exact Hshape|]. split; [reflexivity|]. split; [exact Hne|]. split; [exact Hnf|].
  exact (forward_rectangular (tok := char_tokenizer) small_aligner _ _ _ [0; 0]%Z 8
           small_aligner_tokens_shape small_aligner_attention_shape Hshape eq_refl Hne Hnf).
Defined.

Lemma forward_faulty_aborts_witness :
  tokens_shape small_aligner ∧
  attention_shape small_aligner ∧
  batch_shape 8 (hidden_size small_aligner)
    (embed <$> faulty_batch) faulty_batch ones_masks ∧
  Exists (faulty (tok := char_tokenizer)) faulty_batch ∧
  forward (tok := char_tokenizer) small_aligner (embed <$> faulty_batch)
    faulty_batch ones_masks [0; 0]%Z = Err IndexError.
Proof.
  assert (Hshape : batch_shape 8 (hidden_size small_aligner)
    (embed <$> faulty_batch) faulty_batch ones_masks).
  { apply embed_batch_shape; by repeat constructor. }
  assert (Hex : Exists (faulty (tok := char_tokenizer)) faulty_batch).
  { right. left. unfold faulty. vm_compute. lia. }
  split; [exact small_aligner_tokens_shape|].
  split; [exact small_aligner_attention_shape|].
  split; [exact Hshape|]. split; [exact Hex|].
  exact (forward_faulty_aborts (tok := char_tokenizer) small_aligner _ _ _ [0; 0]%Z 8
           small_aligner_tokens_shape small_aligner_attention_shape Hshape Hex).
Defined.

Lemma forward_no_region_identity_witness :
  batch_shape 8 2 (embed <$> plain_batch) plain_batch ones_masks ∧
  embed <$> plain_batch ≠ [] ∧
  Forall (λ ids, 3%Z ∉ ids ∨ 9%Z ∉ ids) plain_batch ∧
  forward (tok := char_tokenizer) small_aligner (embed <$> plain_batch)
    plain_batch ones_masks [0; 0]%Z
  = Ok (embed <$> plain_batch, ones_masks).
Proof.
  assert (Hshape : batch_shape 8 2
    (embed <$> plain_batch) plain_batch ones_masks).
  { apply embed_batch_shape; by repeat constructor. }
  assert (Hne : embed <$> plain_batch ≠ []) by discriminate.
  assert (Hno : Forall (λ ids, 3%Z ∉ ids ∨ 9%Z ∉ ids) plain_batch).
  { unfold plain_batch.
    constructor; [left; by apply occurrences_0|].
    constructor; [left; by apply occurrences_0|]. constructor. }
  split; [exact Hshape|]. split; [exact Hne|]. split; [exact Hno|].
  exact (forward_no_region_identity (tok := char_tokenizer) small_aligner _ _ _
           [0; 0]%Z 8 2 Hshape Hne Hno).
Defined.

Lemma pad_batch_idempotent_witness :
  pad_batch [0; 0]%Z two_sequences
    = Ok ([embed [4; 5; 6]%Z; embed [7; 0; 0]%Z], [[1; 1; 1]%Z; [1; 0; 0]%Z]) ∧
  pad_batch [0; 0]%Z (zip [embed [4; 5; 6]%Z; embed [7; 0; 0]%Z] [[1; 1; 1]%Z; [1; 0; 0]%Z])
    = Ok ([embed [4; 5; 6]%Z; embed [7; 0; 0]%Z], [[1; 1; 1]%Z; [1; 0; 0]%Z]).
Proof.
  assert (Hp : pad_batch [0; 0]%Z two_sequences
    = Ok ([embed [4; 5; 6]%Z; embed [7; 0; 0]%Z], [[1; 1; 1]%Z; [1; 0; 0]%Z]))
    by reflexivity.
  split; [exact Hp|].
  exact (pad_batch_idempotent [0; 0]%Z two_sequences _ _ Hp).
Defined.

Lemma forward_ValueError_iff_witness :
  length (@nil (list Z)) = length (@nil (list (list Z))) ∧
  (forward (tok := char_tokenizer) small_aligner [] [] [] [0; 0]%Z = Err ValueError
   ↔ @nil (list (list Z)) = []).
Proof.
  split; [reflexivity|].
  exact (forward_ValueError_iff (tok := char_tokenizer) small_aligner [] [] []
           [0; 0]%Z eq_refl eq_refl).
Defined.

(** ** Where the reassembler puts what *)

Section SpliceProps.
Context {R : Type} `{tok : Tokenizer}.

(** X10: when a region [(s, e)] is located, the reassembled example keeps
    positions [0 .. s-1], then holds [k] inserted positions with mask 1
    (none when [e = s + 1]), then the positions after the close tag:
    position [e + 1 + j] of the input is found at [s + k + j]. *)
Theorem reassemble_positions (a : Aligner R) ids emb mask s e new_emb new_mask :
  tokens_shape a →
  attention_shape a →
  shape2 (length ids) (hidden_size a) emb →
  length mask = length ids →
  locate ids = Ok (Some (s, e)) →
  forward_example a (ids, emb, mask) = Ok (new_emb, new_mask) →
  let inserted := if decide (e = s + 1) then 0 else k a in
  (∀ j, j < s → new_emb !! j = emb !! j ∧ new_mask !! j = mask !! j) ∧
  (∀ j, s ≤ j < s + inserted → new_mask !! j = Some 1%Z) ∧
  (∀ j, new_emb !! (s + inserted + j) = emb !! (e + 1 + j) ∧
        new_mask !! (s + inserted + j) = mask !! (e + 1 + j)).
Proof.
  intros Htok Hattn Hemb Hmask Hloc Hf inserted.
  destruct (locate_Some _ _ _ Hloc) as (_ & Hlt & _ & He).
  assert (Hreg : shape2 (e - (s + 1)) (hidden_size a) (slice (s + 1) e emb)).
  { eapply slice_shape; [exact Hemb | lia]. }
  assert (Hle : length emb = length ids) by apply Hemb.
  assert (Hts : length (take s emb) = s) by (rewrite length_take; lia).
  assert (Htm : length (take s mask) = s) by (rewrite length_take; lia).
  unfold forward_example in Hf. rewrite Hloc in Hf. simpl in Hf.
  destruct Hreg as [Hr Hrows]. rewrite Hr in Hf.
  unfold inserted. destruct (decide (e = s + 1)) as [->|Hne].
  - rewrite Nat.sub_diag in Hf. simpl in Hf. injection Hf as <- <-.
    split; [|split].
    + intros j Hj. rewrite !lookup_app_l by lia. by rewrite !lookup_take_lt.
    + intros j Hj. lia.
    + intros j. split.
      * rewrite lookup_app_r by (rewrite Hts; lia). rewrite Hts, lookup_drop.
        f_equal. lia.
      * rewrite lookup_app_r by (rewrite Htm; lia). rewrite Htm, lookup_drop.
        f_equal. lia.
  - destruct (aligned_region_Some a (slice (s + 1) e emb) (e - (s + 1)))
      as (aligned & Hal & Hk & _); [done | done | by split | lia |].
    rewrite Hal in Hf. destruct (e - (s + 1)) eqn:Hd; [lia|]. simpl in Hf.
    injection Hf as <- <-. split; [|split].
    + intros j Hj. rewrite !lookup_app_l by lia. by rewrite !lookup_take_lt.
    + intros j Hj. rewrite lookup_app_r by (rewrite Htm; lia). rewrite Htm.
      rewrite lookup_app_l by (rewrite length_replicate; lia).
      apply lookup_replicate_2. lia.
    + intros j. split.
      * rewrite lookup_app_r by (rewrite Hts; lia). rewrite Hts.
        rewrite lookup_app_r by (rewrite Hk; lia). rewrite Hk, lookup_drop.
        f_equal. lia.
      * rewrite lookup_app_r by (rewrite Htm; lia). rewrite Htm.
        rewrite lookup_app_r by (rewrite length_replicate; lia).
        rewrite length_replicate, lookup_drop. f_equal. lia.
Qed.
End SpliceProps.

Lemma reassemble_positions_witness :
  tokens_shape small_aligner ∧
  attention_shape small_aligner ∧
  shape2 (length scenario_A) (hidden_size small_aligner) (embed scenario_A) ∧
  length (replicate 8 1%Z) = length scenario_A ∧
  locate (tok := char_tokenizer) scenario_A = Ok (Some (4, 6)) ∧
  forward_example (tok := char_tokenizer) small_aligner
    (scenario_A, embed scenario_A, replicate 8 1%Z)
    = Ok (embed [5; 7; 3; 3; 9; 9; 2]%Z, replicate 7 1%Z) ∧
  (∀ j, j < 4 → embed [5; 7; 3; 3; 9; 9; 2]%Z !! j = embed scenario_A !! j ∧
                replicate 7 1%Z !! j = replicate 8 1%Z !! j) ∧
  (∀ j, 4 ≤ j < 4 + 2 → replicate 7 1%Z !! j = Some 1%Z) ∧
  (∀ j, embed [5; 7; 3; 3; 9; 9; 2]%Z !! (4 + 2 + j) = embed scenario_A !! (6 + 1 + j) ∧
        replicate 7 1%Z !! (4 + 2 + j) = replicate 8 1%Z !! (6 + 1 + j)).
Proof.
  assert (Hloc : locate (tok := char_tokenizer) scenario_A = Ok (Some (4, 6)))
    by reflexivity.
  assert (Hmask : length (replicate 8 1%Z) = length scenario_A) by reflexivity.
  assert (Hf : forward_example (tok := char_tokenizer) small_aligner
    (scenario_A, embed scenario_A, replicate 8 1%Z)
    = Ok (embed [5; 7; 3; 3; 9; 9; 2]%Z, replicate 7 1%Z)) by reflexivity.
  split; [exact small_aligner_tokens_shape|].
  split; [exact small_aligner_attention_shape|].
  split; [exact (embed_shape scenario_A)|].
  split; [exact Hmask|]. split; [exact Hloc|]. split; [exact Hf|].
  exact (reassemble_positions (tok := char_tokenizer) small_aligner
           scenario_A (embed scenario_A) (replicate 8 1%Z) 4 6 _ _
           small_aligner_tokens_shape small_aligner_attention_shape
           (embed_shape scenario_A) Hmask Hloc Hf).
Defined.

(** * Further properties of the collator *)

Section CollatorMore.
Context `{tok : Tokenizer}.

Lemma right_pad_lengths p seqs :
  Forall (λ r, length r = max_list (length <$> seqs)) (right_pad p seqs).
Proof.
  unfold right_pad. apply Forall_fmap, Forall_forall. intros s Hs. simpl.
  rewrite length_app, length_replicate.
  assert (length s ≤ max_list (length <$> seqs)); [|lia].
  apply max_list_elem_of_le, list_elem_of_fmap. by exists s.
Qed.

Lemma ids_max_len batch :
  max_list (length <$> ((λ example, encode (full_text example)) <$> batch))
  = collated_max_len batch.
Proof. unfold collated_max_len. by rewrite <- list_fmap_compose. Qed.

(** X11: for a non-empty batch collated by a right-padding tokenizer,
    with every prompt length within its text length, the three tensors
    of the batch have one row per example (at least one) and every row
    has the length of the longest tokenized text. *)
Theorem data_collator_shapes `{!RightPadding tok} batch :
  batch ≠ [] →
  Forall (λ example,
    prompt_length example ≤ length (encode (full_text example))) batch →
  let out := data_collator batch in
  let w := collated_max_len batch in
  0 < length (input_ids out) ∧
  length (input_ids out) = length batch ∧
  length (attention_mask out) = length batch ∧
  length (labels out) = length batch ∧
  Forall (λ r, length r = w) (input_ids out) ∧
  Forall (λ r, length r = w) (attention_mask out) ∧
  Forall (λ r, length r = w) (labels out).
Proof.
  intros Hne Hall out w. unfold out, data_collator. simpl.
  rewrite !pad_right. unfold ne_pad_long.
  assert (HI := right_pad_lengths pad_token_id
                  ((λ example, encode (full_text example)) <$> batch)).
  assert (HL := right_pad_lengths pad_token_id (example_labels <$> batch)).
  rewrite ids_max_len in HI. rewrite labels_max_len in HL by done.
  split; [unfold right_pad; rewrite !length_fmap; destruct batch; [done | simpl; lia]|].
  split; [unfold right_pad; by rewrite !length_fmap|].
  split; [unfold right_pad; by rewrite !length_fmap|].
  split; [unfold right_pad; by rewrite !length_fmap|].
  split; [done|]. split; [|done].
  apply Forall_fmap. eapply Forall_impl; [exact HI|].
  intros r Hr. simpl. by rewrite length_fmap.
Qed.

(** X12: in the collated batch the label row of an example is -100 on
    its first [prompt_length] positions and equal to the input row at
    every other position, padding included. *)
Theorem labels_equal_inputs_after_prompt `{!RightPadding tok} batch i example j :
  Forall (λ example,
    prompt_length example ≤ length (encode (full_text example))) batch →
  batch !! i = Some example →
  ∃ r_in r_lab,
    input_ids (data_collator batch) !! i = Some r_in ∧
    labels (data_collator batch) !! i = Some r_lab ∧
    (j < prompt_length example → r_lab !! j = Some (-100)%Z) ∧
    (prompt_length example ≤ j → r_lab !! j = r_in !! j).
Proof.
  intros Hall Hi.
  assert (Hp : prompt_length example ≤ length (encode (full_text example))).
  { rewrite Forall_forall in Hall. apply Hall. by eapply list_elem_of_lookup_2. }
  eexists _, _. unfold data_collator. simpl. rewrite !pad_right.
  split; [apply right_pad_lookup; by rewrite list_lookup_fmap, Hi|].
  split; [apply right_pad_lookup; by rewrite list_lookup_fmap, Hi|].
  rewrite ids_max_len, labels_max_len by done.
  rewrite example_labels_length by done. simpl. split.
  - intros Hj. rewrite lookup_app_l by (rewrite example_labels_length by done; lia).
    unfold example_labels. rewrite lookup_app_l by (rewrite length_replicate; lia).
    by apply lookup_replicate_2.
  - intros Hj.
    destruct (decide (j < length (encode (full_text example)))) as [Hlt|Hge].
    + rewrite !lookup_app_l; [|lia|rewrite example_labels_length by done; lia].
      unfold example_labels. rewrite lookup_app_r by (rewrite length_replicate; lia).
      rewrite length_replicate, lookup_drop. f_equal. lia.
    + rewrite !lookup_app_r; [|lia|rewrite example_labels_length by done; lia].
      by rewrite example_labels_length.
Qed.

(** X13: when the pad token id does not occur in the tokenized text of an
    example, its attention mask row is 1 on the positions of the text
    and 0 on the padding. *)
Theorem attention_mask_counts_tokens `{!RightPadding tok} batch i example :
  batch !! i = Some example →
  pad_token_id ∉ encode (full_text example) →
  attention_mask (data_collator batch) !! i =
    Some (replicate (length (encode (full_text example))) 1%Z ++
          replicate (collated_max_len batch - length (encode (full_text example))) 0%Z).
Proof.
  intros Hi Hno. unfold data_collator. simpl. rewrite pad_right.
  unfold ne_pad_long. rewrite list_lookup_fmap.
  rewrite (right_pad_lookup _ _ i (encode (full_text example)))
    by (by rewrite list_lookup_fmap, Hi).
  simpl. f_equal. rewrite ids_max_len, fmap_app, fmap_replicate.
  rewrite bool_decide_eq_false_2 by (by intros H; apply H).
  f_equal. induction (encode (full_text example)) as [|x l IH]; [done|].
  apply not_elem_of_cons in Hno as [Hx Hl]. simpl.
  rewrite bool_decide_eq_true_2 by done. f_equal. by apply IH.
Qed.

(** X14: in general the label sequence is as long as the longer of the
    prompt length and the tokenized text; when the prompt length reaches
    the text length every label is -100. *)
Theorem example_labels_general example :
  length (example_labels example)
    = prompt_length example `max` length (encode (full_text example)) ∧
  (length (encode (full_text example)) ≤ prompt_length example →
   example_labels example = replicate (prompt_length example) (-100)%Z).
Proof.
  unfold example_labels. split.
  - rewrite length_app, length_replicate, length_drop. lia.
  - intros Hle. rewrite drop_ge by done. by rewrite app_nil_r.
Qed.
End CollatorMore.

(** * Further properties of the merge script *)

Section MergeMore.
Variable train_test_split : Dataset → gmap string Dataset.


(** X16: whatever the outcome, the script changes no path of the disk
    other than [data/merged]; the two inputs are never modified. *)
Theorem dataset_merge_frame (disk : gmap string Stored) path :
  path ≠ "data/merged" →
  (dataset_merge train_test_split disk).1 !! path = disk !! path.
Proof.
  intros Hne. unfold dataset_merge.
  destruct (merge_steps _ disk) as [disk'|e] eqn:Hm; [|done]. simpl.
  unfold merge_steps in Hm.
  destruct (load_from_disk disk "data/s1") as [s1|]; simpl in Hm; [|done].
  destruct (load_from_disk disk "data/s2") as [s2|]; simpl in Hm; [|done].
  destruct (get_features s1) as [f1|]; simpl in Hm; [|done].
  destruct (get_features s2) as [f2|]; simpl in Hm; [|done].
  destruct (bool_decide (f1 ≠ f2)); [done|].
  destruct (get_dataset s1) as [d1|]; simpl in Hm; [|done].
  destruct (get_dataset s2) as [d2|]; simpl in Hm; [|done].
  destruct (length (records d1 ++ records d2) <? 2); [done|].
  injection Hm as <-. by rewrite lookup_insert_ne.
Qed.

(** X17: the script ends with [FileNotFoundError], before anything is
    compared or written, exactly when one of the two input paths is
    absent from the disk. *)
Theorem dataset_merge_missing_iff (disk : gmap string Stored) :
  dataset_merge train_test_split disk = (disk, Err FileNotFoundError) ↔
  disk !! "data/s1" = None ∨ disk !! "data/s2" = None.
Proof.
  unfold dataset_merge, merge_steps, load_from_disk. split.
  - destruct (disk !! "data/s1") as [[d1|?]|] eqn:H1; [| |by left];
      (destruct (disk !! "data/s2") as [[d2|?]|] eqn:H2; [| |by right]); simpl; try done.
    case_bool_decide; [done|]. simpl.
    by destruct (length (records d1 ++ records d2) <? 2).
  - intros [->| ->]; [done|]. by destruct (disk !! "data/s1").
Qed.
End MergeMore.

(** ** The collator and the merge script at concrete inputs *)

Lemma two_examples_prompts :
  Forall (λ example,
    prompt_length example
    ≤ length (encode (Tokenizer := char_tokenizer) (full_text example))) two_examples.
Proof. unfold two_examples. repeat constructor. Qed.

Lemma data_collator_shapes_witness :
  two_examples ≠ [] ∧
  Forall (λ example,
    prompt_length example
    ≤ length (encode (Tokenizer := char_tokenizer) (full_text example))) two_examples ∧
  0 < length (input_ids (data_collator (tok := char_tokenizer) two_examples)) ∧
  length (input_ids (data_collator (tok := char_tokenizer) two_examples)) = 2 ∧
  length (attention_mask (data_collator (tok := char_tokenizer) two_examples)) = 2 ∧
  length (labels (data_collator (tok := char_tokenizer) two_examples)) = 2 ∧
  Forall (λ r, length r = 4) (input_ids (data_collator (tok := char_tokenizer) two_examples)) ∧
  Forall (λ r, length r = 4) (attention_mask (data_collator (tok := char_tokenizer) two_examples)) ∧
  Forall (λ r, length r = 4) (labels (data_collator (tok := char_tokenizer) two_examples)).
Proof.
  assert (Hne : two_examples ≠ []) by discriminate.
  split; [exact Hne|]. split; [exact two_examples_prompts|].
  exact (@data_collator_shapes char_tokenizer char_tokenizer_right_padding
           two_examples Hne two_examples_prompts).
Defined.

Lemma labels_equal_inputs_after_prompt_witness :
  Forall (λ example,
    prompt_length example
    ≤ length (encode (Tokenizer := char_tokenizer) (full_text example))) two_examples ∧
  two_examples !! 1 = Some {| full_text := "ab"; prompt_length := 1 |} ∧
  ∃ r_in r_lab,
    input_ids (data_collator (tok := char_tokenizer) two_examples) !! 1 = Some r_in ∧
    labels (data_collator (tok := char_tokenizer) two_examples) !! 1 = Some r_lab ∧
    (2 < 1 → r_lab !! 2 = Some (-100)%Z) ∧
    (1 ≤ 2 → r_lab !! 2 = r_in !! 2).
Proof.
  split; [exact two_examples_prompts|]. split; [reflexivity|].
  exact (@labels_equal_inputs_after_prompt char_tokenizer char_tokenizer_right_padding
           two_examples 1 {| full_text := "ab"; prompt_length := 1 |} 2
           two_examples_prompts eq_refl).
Defined.

Lemma attention_mask_counts_tokens_witness :
  two_examples !! 1 = Some {| full_text := "ab"; prompt_length := 1 |} ∧
  (0%Z ∉ [97; 98]%Z) ∧
  attention_mask (data_collator (tok := char_tokenizer) two_examples) !! 1
    = Some [1; 1; 0; 0]%Z.
Proof.
  assert (Hno : 0%Z ∉ [97; 98]%Z).
  { intros Hin. repeat (apply elem_of_cons in Hin as [Hin|Hin]; [discriminate|]).
    by apply elem_of_nil in Hin. }
  split; [reflexivity|]. split; [exact Hno|].
  exact (@attention_mask_counts_tokens char_tokenizer char_tokenizer_right_padding
           two_examples 1 {| full_text := "ab"; prompt_length := 1 |} eq_refl Hno).
Defined.

(** A prompt length beyond the text: every label is -100. *)
Lemma example_labels_general_witness :
  length (encode (Tokenizer := char_tokenizer) "ab") ≤ 3 ∧
  example_labels (tok := char_tokenizer) {| full_text := "ab"; prompt_length := 3 |}
    = [-100; -100; -100]%Z.
Proof.
  assert (Hle : length (encode (Tokenizer := char_tokenizer) "ab") ≤ 3)
    by (vm_compute; lia).
  split; [exact Hle|].
  exact (proj2 (example_labels_general (tok := char_tokenizer)
                  {| full_text := "ab"; prompt_length := 3 |}) Hle).
Defined.

Lemma dataset_merge_frame_witness :
  "data/s1" ≠ "data/merged" ∧
  (dataset_merge split_all_train disk_AA).1 !! "data/s1" = disk_AA !! "data/s1".
Proof.
  assert (Hne : "data/s1" ≠ "data/merged") by discriminate.
  split; [exact Hne|].
  exact (dataset_merge_frame split_all_train disk_AA "data/s1" Hne).
Defined.

(** * The wrapper model *)

Section AlignmentProps.
Context {R Out : Type} `{tok : Tokenizer}.

Lemma embedding_Ok (weight : list (list R)) V h t :
  shape2 V h weight → (0 ≤ t < Z.of_nat V)%Z →
  ∃ r, embedding weight t = Ok r ∧ length r = h.
Proof.
  intros [HV Hh] Ht. unfold embedding.
  rewrite bool_decide_eq_false_2 by lia.
  destruct (lookup_lt_is_Some_2 weight (Z.to_nat t)) as [r Hr]; [lia|].
  rewrite Hr. exists r. split; [done|].
  rewrite Forall_forall in Hh. apply Hh. by eapply list_elem_of_lookup_2.
Qed.

Lemma embedding_sequence (weight : list (list R)) V h ids :
  shape2 V h weight → Forall (λ t, (0 ≤ t < Z.of_nat V)%Z) ids →
  ∃ emb, for_each (embedding weight) ids = Ok emb ∧ shape2 (length ids) h emb.
Proof.
  intros Hw. induction 1 as [|t ids Ht _ (emb & Hemb & Hl & Hrows)].
  - exists []. split; [done|]. split; [done | constructor].
  - destruct (embedding_Ok weight V h t Hw Ht) as (r & Hr & Hlr).
    exists (r :: emb). simpl. rewrite Hr, Hemb. split; [done|].
    split; [simpl; lia | by constructor].
Qed.

Lemma embedding_batch (weight : list (list R)) V h n input_ids :
  shape2 V h weight →
  Forall (Forall (λ t, (0 ≤ t < Z.of_nat V)%Z)) input_ids →
  Forall (λ ids, length ids = n) input_ids →
  ∃ embeddings,
    for_each (for_each (embedding weight)) input_ids = Ok embeddings ∧
    length embeddings = length input_ids ∧ Forall (shape2 n h) embeddings.
Proof.
  intros Hw Hr Hn. induction input_ids as [|ids I IH].
  - exists []. split; [done|]. split; [done | constructor].
  - apply Forall_cons in Hr as [Hids Hr]. apply Forall_cons in Hn as [Hlen Hn].
    destruct (IH Hr Hn) as (E & HE & HlE & HsE).
    destruct (embedding_sequence weight V h ids Hw Hids) as (emb & Hemb & Hsh).
    exists (emb :: E). simpl. rewrite Hemb, HE. split; [done|].
    split; [simpl; lia|]. constructor; [by rewrite <- Hlen | done].
Qed.

(** X18: when every token id and the pad token id lie inside the
    embedding table, the inputs are [(B, n)] tensors with [B ≥ 1] and no
    example has one or two open tags together with a close tag, the
    wrapper reaches the language model and hands it embeddings of shape
    [(B, w, h)], a mask of shape [(B, w)] and the labels it was given. *)
Theorem alignment_forward_reaches_model (m : Alignment R Out)
    input_ids attention_mask labels V n :
  shape2 V (hidden_size (aligner m)) (embed_tokens m) →
  tokens_shape (aligner m) →
  attention_shape (aligner m) →
  input_ids ≠ [] →
  length attention_mask = length input_ids →
  Forall (λ ids, length ids = n) input_ids →
  Forall (λ mask, length mask = n) attention_mask →
  Forall (Forall (λ t, (0 ≤ t < Z.of_nat V)%Z)) input_ids →
  (0 ≤ pad_token_id < Z.of_nat V)%Z →
  Forall (λ ids, ¬ faulty ids) input_ids →
  ∃ inputs_embeds new_attention_mask w,
    alignment_forward m input_ids attention_mask labels
      = model m inputs_embeds new_attention_mask labels ∧
    shape3 (length input_ids) w (hidden_size (aligner m)) inputs_embeds ∧
    shape2 (length input_ids) w new_attention_mask.
Proof.
  intros Hw Htok Hattn Hne HlM HnI HnM Hrange Hpad Hnf.
  destruct (embedding_batch _ V _ n input_ids Hw Hrange HnI) as (E & HE & HlE & HsE).
  destruct (embedding_Ok _ V _ pad_token_id Hw Hpad) as (p & Hp & Hlp).
  assert (Hshape : batch_shape n (hidden_size (aligner m)) E input_ids attention_mask).
  { unfold batch_shape. repeat split; try done; lia. }
  assert (HneE : E ≠ []) by (intros ->; destruct input_ids; done).
  destruct (forward_Ok_shape (aligner m) E input_ids attention_mask p n
              Htok Hattn Hshape Hlp HneE Hnf) as (E' & M' & w & Hf & HsE' & HsM' & _).
  exists E', M', w. rewrite HlE in HsE', HsM'. split; [|done].
  unfold alignment_forward. rewrite HE. simpl. rewrite Hp. simpl. by rewrite Hf.
Qed.
End AlignmentProps.

Lemma alignment_forward_reaches_model_witness :
  shape2 10 (hidden_size (aligner small_alignment)) (embed_tokens small_alignment) ∧
  tokens_shape (aligner small_alignment) ∧
  attention_shape (aligner small_alignment) ∧
  region_batch ≠ [] ∧
  length ones_masks = length region_batch ∧
  Forall (λ ids, length ids = 8) region_batch ∧
  Forall (λ mask, length mask = 8) ones_masks ∧
  Forall (Forall (λ t, (0 ≤ t < Z.of_nat 10)%Z)) region_batch ∧
  (0 ≤ pad_token_id (Tokenizer := char_tokenizer) < Z.of_nat 10)%Z ∧
  Forall (λ ids, ¬ faulty (tok := char_tokenizer) ids) region_batch ∧
  ∃ inputs_embeds new_attention_mask w,
    alignment_forward (tok := char_tokenizer) small_alignment region_batch ones_masks None
      = model small_alignment inputs_embeds new_attention_mask None ∧
    shape3 (length region_batch) w (hidden_size (aligner small_alignment)) inputs_embeds ∧
    shape2 (length region_batch) w new_attention_mask.
Proof.
  assert (Hw : shape2 10 (hidden_size (aligner small_alignment))
                 (embed_tokens small_alignment)) by apply embed_shape.
  assert (Hne : region_batch ≠ []) by discriminate.
  assert (HlM : length ones_masks = length region_batch) by reflexivity.
  assert (HnI : Forall (λ ids, length ids = 8) region_batch) by (by repeat constructor).
  assert (HnM : Forall (λ mask, length mask = 8) ones_masks) by (by repeat constructor).
  assert (Hrange : Forall (Forall (λ t, (0 ≤ t < Z.of_nat 10)%Z)) region_batch).
  { apply (bool_decide_unpack _). vm_compute. exact I. }
  assert (Hpad : (0 ≤ pad_token_id (Tokenizer := char_tokenizer) < Z.of_nat 10)%Z)
    by (simpl; lia).
  assert (Hnf : Forall (λ ids, ¬ faulty (tok := char_tokenizer) ids) region_batch).
  { repeat constructor; unfold faulty; vm_compute; lia. }
  split; [exact Hw|].
  split; [exact small_aligner_tokens_shape|].
  split; [exact small_aligner_attention_shape|].
  split; [exact Hne|]. split; [exact HlM|]. split; [exact HnI|]. split; [exact HnM|].
  split; [exact Hrange|]. split; [exact Hpad|]. split; [exact Hnf|].
  exact (alignment_forward_reaches_model (tok := char_tokenizer) small_alignment
           region_batch ones_masks None 10 8 Hw small_aligner_tokens_shape
           small_aligner_attention_shape Hne HlM HnI HnM Hrange Hpad Hnf).
Defined.

(** * preprocess_example *)

Lemma list_remove_length x l :
  x ∈ l → length (list_remove x l) = length l - 1.
Proof.
  induction l as [|y l IH]; [by intros ?%elem_of_nil|].
  intros Hin. simpl. case_bool_decide as Hy; [lia|].
  apply elem_of_cons in Hin as [->|Hin]; [done|].
  simpl. rewrite IH by done. destruct l; [by apply elem_of_nil in Hin | simpl; lia].
Qed.

Section PreprocessProps.
Context `{tok : Tokenizer} `{!EosTokenizer tok}.

Lemma prompt_token_count_eq prompt_part :
  prompt_token_count prompt_part =
    length (encode prompt_part)
    - (if bool_decide (eos_token_id ∈ encode prompt_part) then 1 else 0).
Proof.
  unfold prompt_token_count. case_bool_decide as Hin; [|lia].
  by apply list_remove_length.
Qed.

(** X19: preprocessing a record succeeds exactly when it has the fields
    [problem], [logic_trajectory] and [answer]; otherwise it ends with a
    [KeyError] for the first missing one in that order.  No other field
    is read. *)
Theorem preprocess_example_KeyError (example : gmap string string) system_prompt :
  match preprocess_example example system_prompt with
  | inr _ =>
      is_Some (example !! "problem") ∧ is_Some (example !! "logic_trajectory") ∧
      is_Some (example !! "answer")
  | inl (KeyError key) =>
      example !! key = None ∧
      (key = "problem" ∨
       key = "logic_trajectory" ∧ is_Some (example !! "problem") ∨
       key = "answer" ∧ is_Some (example !! "problem") ∧
         is_Some (example !! "logic_trajectory"))
  end.
Proof.
  unfold preprocess_example, getitem.
  destruct (example !! "problem") as [pb|] eqn:Hp; [|by split; [|left]].
  destruct (example !! "logic_trajectory") as [lt|] eqn:Hl;
    [|split; [done|]; right; left; by split].
  destruct (example !! "answer") as [an|] eqn:Ha;
    [|split; [done|]; right; right; by repeat split].
  by repeat split.
Qed.

(** X20: for a record with the three fields, when the tokenizer encodes
    the full text as the tokens of the prompt followed by the tokens of
    the target, the labels built by the collator are [prompt_length]
    times -100, then the prompt tokens from [prompt_length] on, then the
    tokens of [answer</answer>]; [prompt_length] is the number of prompt
    tokens, less one when the end-of-sequence id is among them.  Without
    that id in the prompt, exactly the prompt is masked. *)
Theorem preprocess_example_labels (example : gmap string string) system_prompt
    pb lt an :
  example !! "problem" = Some pb →
  example !! "logic_trajectory" = Some lt →
  example !! "answer" = Some an →
  let prompt_part := prompt_text system_prompt pb lt in
  let target_part := an +:+ "</answer>" in
  encode (prompt_part +:+ target_part) = encode prompt_part ++ encode target_part →
  ∃ r,
    preprocess_example example system_prompt = inr r ∧
    full_text r = prompt_part +:+ target_part ∧
    prompt_length r =
      length (encode prompt_part)
      - (if bool_decide (eos_token_id ∈ encode prompt_part) then 1 else 0) ∧
    example_labels r =
      replicate (prompt_length r) (-100)%Z
      ++ drop (prompt_length r) (encode prompt_part) ++ encode target_part ∧
    (eos_token_id ∉ encode prompt_part →
     example_labels r =
       replicate (length (encode prompt_part)) (-100)%Z ++ encode target_part).
Proof.
  intros Hp Hl Ha prompt_part target_part Henc.
  eexists. unfold preprocess_example, getitem. rewrite Hp, Hl, Ha.
  split; [reflexivity|]. simpl. fold prompt_part target_part.
  assert (Hcount := prompt_token_count_eq prompt_part).
  split; [done|]. split; [done|].
  assert (Hle : prompt_token_count prompt_part ≤ length (encode prompt_part)) by lia.
  unfold example_labels. simpl. fold prompt_part target_part. rewrite Henc.
  split.
  - by rewrite drop_app_le.
  - intros Hno. rewrite Hcount, bool_decide_eq_false_2 by done.
    rewrite Nat.sub_0_r, drop_app_length. done.
Qed.
End PreprocessProps.

(** A record whose problem text contains the end-of-sequence token. *)
Example sum_record_preprocessed :
  preprocess_example (tok := char_tokenizer) (EosTokenizer0 := char_eos) sum_record "Solve."
  = inr {| full_text :=
             "<｜begin▁of▁sentence｜>Solve.<｜User｜>1+1<｜Assistant｜><think>add</think><answer>2</answer>";
           prompt_length := 93 |}.
Proof. reflexivity. Qed.

Lemma preprocess_example_labels_witness :
  let prompt_part :=
    prompt_text (tok := char_tokenizer) (EosTokenizer0 := char_eos) "Solve." "1+1$" "add" in
  sum_record !! "problem" = Some "1+1$" ∧
  sum_record !! "logic_trajectory" = Some "add" ∧
  sum_record !! "answer" = Some "2" ∧
  encode (Tokenizer := char_tokenizer) (prompt_part +:+ "2" +:+ "</answer>")
    = encode (Tokenizer := char_tokenizer) prompt_part
      ++ encode (Tokenizer := char_tokenizer) ("2" +:+ "</answer>") ∧
  ∃ r,
    preprocess_example (tok := char_tokenizer) (EosTokenizer0 := char_eos)
      sum_record "Solve." = inr r ∧
    full_text r = prompt_part +:+ "2" +:+ "</answer>" ∧
    prompt_length r =
      length (encode (Tokenizer := char_tokenizer) prompt_part)
      - (if bool_decide (eos_token_id (EosTokenizer := char_eos)
                           ∈ encode (Tokenizer := char_tokenizer) prompt_part)
         then 1 else 0) ∧
    example_labels (tok := char_tokenizer) r =
      replicate (prompt_length r) (-100)%Z
      ++ drop (prompt_length r) (encode (Tokenizer := char_tokenizer) prompt_part)
      ++ encode (Tokenizer := char_tokenizer) ("2" +:+ "</answer>") ∧
    (eos_token_id (EosTokenizer := char_eos)
       ∉ encode (Tokenizer := char_tokenizer) prompt_part →
     example_labels (tok := char_tokenizer) r =
       replicate (length (encode (Tokenizer := char_tokenizer) prompt_part)) (-100)%Z
       ++ encode (Tokenizer := char_tokenizer) ("2" +:+ "</answer>")).
Proof.
  intros prompt_part.
  assert (Hp : sum_record !! "problem" = Some "1+1$") by reflexivity.
  assert (Hl : sum_record !! "logic_trajectory" = Some "add") by reflexivity.
  assert (Ha : sum_record !! "answer" = Some "2") by reflexivity.
  assert (Henc : encode (Tokenizer := char_tokenizer) (prompt_part +:+ "2" +:+ "</answer>")
    = encode (Tokenizer := char_tokenizer) prompt_part
      ++ encode (Tokenizer := char_tokenizer) ("2" +:+ "</answer>")) by reflexivity.
  split; [exact Hp|]. split; [exact Hl|]. split; [exact Ha|]. split; [exact Henc|].
  exact (preprocess_example_labels (tok := char_tokenizer) (EosTokenizer0 := char_eos)
           sum_record "Solve." "1+1$" "add" "2" Hp Hl Ha Henc).
Defined.

(** * Strings: searching and splitting *)

Lemma starts_with_app p s : starts_with p (p +:+ s) = true.
Proof. induction p as [|a p IH]; simpl; [done|]. by rewrite Ascii.eqb_refl. Qed.

Lemma str_contains_starts sub s : starts_with sub s = true → str_contains sub s = true.
Proof. intros H. destruct s; simpl in *; by rewrite H. Qed.

Lemma str_contains_app_r sub a s :
  str_contains sub s = true → str_contains sub (a +:+ s) = true.
Proof.
  intros H. induction a as [|c a IH]; simpl; [done|].
  rewrite IH. apply orb_true_r.
Qed.

Lemma split_from_nonempty sep skip s : split_from sep skip s ≠ [].
Proof.
  revert skip. induction s as [|c s IH]; intros skip; simpl; [done|].
  destruct skip; [|apply IH].
  destruct (starts_with sep _); [done|].
  specialize (IH 0). by destruct (split_from sep 0 s).
Qed.

Lemma split_from_skip sep x rest :
  split_from sep (String.length x) (x +:+ rest) = split_from sep 0 rest.
Proof. induction x as [|c x IH]; simpl; [by destruct rest | done]. Qed.

(** At an occurrence of the separator a new piece starts. *)
Lemma split_from_match c sep' rest :
  split_from (String c sep') 0 (String c sep' +:+ rest)
  = EmptyString :: split_from (String c sep') 0 rest.
Proof.
  pose proof (starts_with_app (String c sep') rest) as H.
  change (String c sep' +:+ rest) with (String c (sep' +:+ rest)) in *.
  cbn [split_from]. rewrite H. f_equal.
  replace (String.length (String c sep') - 1) with (String.length sep')
    by (simpl; lia).
  apply split_from_skip.
Qed.

Lemma split_from_mismatch sep c s :
  starts_with sep (String c s) = false →
  split_from sep 0 (String c s) = push_char c (split_from sep 0 s).
Proof. intros H. cbn [split_from]. by rewrite H. Qed.

Lemma split_from_fresh c sep' a s :
  str_contains (String c EmptyString) a = false →
  split_from (String c sep') 0 (a +:+ s)
  = push_str a (split_from (String c sep') 0 s).
Proof.
  induction a as [|d a IH]; intros Hfree.
  - change (EmptyString +:+ s) with s.
    pose proof (split_from_nonempty (String c sep') 0 s) as Hne.
    destruct (split_from (String c sep') 0 s) as [|p ps]; [by destruct Hne | done].
  - simpl in Hfree. apply orb_false_iff in Hfree as [Hd Ha].
    change (String d a +:+ s) with (String d (a +:+ s)).
    rewrite split_from_mismatch.
    + rewrite IH by done.
      pose proof (split_from_nonempty (String c sep') 0 s) as Hne.
      destruct (split_from (String c sep') 0 s) as [|p ps]; [by destruct Hne | done].
    + simpl. by destruct (Ascii.eqb c d).
Qed.

Lemma str_split_not_contains sep s :
  str_contains sep s = false → str_split sep s = [s].
Proof.
  unfold str_split. induction s as [|c s IH]; intros H; [done|].
  simpl in H. apply orb_false_iff in H as [H1 H2].
  rewrite split_from_mismatch by done. by rewrite IH.
Qed.

Lemma str_split_contains c sep' s :
  str_contains (String c sep') s = true →
  ∃ p q ps, str_split (String c sep') s = p :: q :: ps.
Proof.
  unfold str_split. induction s as [|d s IH]; intros H; [done|].
  cbn [split_from]. simpl in H.
  destruct (starts_with (String c sep') (String d s)) eqn:Hs.
  - pose proof (split_from_nonempty (String c sep') (String.length (String c sep') - 1) s)
      as Hne.
    destruct (split_from (String c sep') (String.length (String c sep') - 1) s)
      as [|q ps]; [by destruct Hne|].
    by eexists _, _, _.
  - simpl in Hs. rewrite Hs in H. simpl in H.
    destruct (IH H) as (p & q & ps & ->). by eexists _, _, _.
Qed.

(** * Extraction of the reasoning and the answer *)

Lemma str_split_head sep s : ∃ p ps, str_split sep s = p :: ps.
Proof.
  pose proof (split_from_nonempty sep 0 s) as Hne. unfold str_split.
  destruct (split_from sep 0 s) as [|p ps]; [by destruct Hne | by eexists _, _].
Qed.

Lemma think_piece_Some output :
  str_contains "<think>" output = true → is_Some (think_piece output).
Proof.
  intros (p & q & ps & Hs)%str_split_contains. unfold think_piece.
  rewrite Hs. simpl. destruct (str_split_head "</think>" q) as (t & ts & ->).
  by eexists.
Qed.

Lemma answer_piece_Some output :
  str_contains "</think>" output = true → is_Some (answer_piece output).
Proof.
  intros Hc. unfold answer_piece.
  destruct (str_contains "<answer>" output) eqn:Ha; simpl.
  - destruct (str_contains "</answer>" output) eqn:Hb; simpl.
    + apply str_split_contains in Ha as (p & q & ps & ->). simpl.
      destruct (str_split_head "</answer>" q) as (t & ts & ->). by eexists.
    + apply str_split_contains in Hc as (p & q & ps & ->). by eexists.
  - apply str_split_contains in Hc as (p & q & ps & ->). by eexists.
Qed.

Section ExtractProps.
Variable strip : string → string.

Lemma extract_Some_inv output think_content answer_content :
  extract_logic_and_answer strip output = Some (think_content, answer_content) →
  think_content ≠ "" ∧ answer_content ≠ "".
Proof.
  unfold extract_logic_and_answer.
  destruct (think_piece output) as [t|]; [|done]. simpl.
  destruct (answer_piece output) as [a|]; [|done]. simpl.
  destruct (Nat.eqb_spec (String.length (strip t)) 0) as [|Ht]; [done|].
  destruct (Nat.eqb_spec (String.length (strip a)) 0) as [|Ha]; [done|]. simpl.
  intros [= <- <-]. split; intros Heq; rewrite Heq in *; done.
Qed.

(** X21: whatever is extracted is not empty: both the reasoning and the
    answer of a result have at least one character. *)
Theorem extract_never_empty output think_content answer_content :
  extract_logic_and_answer strip output = Some (think_content, answer_content) →
  think_content ≠ "" ∧ answer_content ≠ "".
Proof.
  unfold extract_logic_and_answer.
  destruct (think_piece output) as [t|]; [|done]. simpl.
  destruct (answer_piece output) as [a|]; [|done]. simpl.
  destruct (String.length (strip t)) eqn:Ht; [done|].
  destruct (String.length (strip a)) eqn:Ha; [done|]. simpl.
  intros [= <- <-]. split; intros Heq; rewrite Heq in *; done.
Qed.

(** X22: on an output that passes [validate_output] no subscript is out
    of range: the reasoning piece and the answer piece both exist, and
    the extraction gives their stripped texts, or nothing when one of
    the two is empty after stripping. *)
Theorem extract_validated output :
  validate_output output = true →
  ∃ t a,
    think_piece output = Some t ∧ answer_piece output = Some a ∧
    extract_logic_and_answer strip output =
      if Nat.eqb (String.length (strip t)) 0 || Nat.eqb (String.length (strip a)) 0
      then None else Some (strip t, strip a).
Proof.
  unfold validate_output. intros [H1 H2]%andb_true_iff.
  destruct (think_piece_Some output H1) as [t Ht].
  destruct (answer_piece_Some output H2) as [a Ha].
  exists t, a. split; [done|]. split; [done|].
  unfold extract_logic_and_answer. by rewrite Ht, Ha.
Qed.

(** X23: an output without [<think>] gives nothing, and so does an
    output that has neither [</think>] nor both answer tags. *)
Theorem extract_missing_tags output :
  str_contains "<think>" output = false ∨
  (str_contains "</think>" output = false ∧
   str_contains "<answer>" output && str_contains "</answer>" output = false) →
  extract_logic_and_answer strip output = None.
Proof.
  unfold extract_logic_and_answer. intros [H|[H1 H2]].
  - unfold think_piece. by rewrite (str_split_not_contains _ _ H).
  - destruct (think_piece output) as [t|]; [|done]. simpl.
    unfold answer_piece. rewrite H2. by rewrite (str_split_not_contains _ _ H1).
Qed.
End ExtractProps.

(** ** A well-formed output is read back *)

Lemma append_empty_r s : s +:+ "" = s.
Proof.
  induction s as [|c s IH]; [done|].
  change (String c s +:+ "") with (String c (s +:+ "")). by rewrite IH.
Qed.

Lemma push_str_lookup_0 a p ps : push_str a (p :: ps) !! 0 = Some (a +:+ p).
Proof. done. Qed.

Lemma push_str_lookup_S a l i : l ≠ [] → push_str a l !! S i = l !! S i.
Proof. by destruct l. Qed.

Lemma push_str_nonempty a l : push_str a l ≠ [].
Proof. by destruct l. Qed.

(** A tag other than the separator is passed over. *)
Lemma split_from_other_tag c sep' tag' s :
  (∀ s', starts_with (String c sep') (String c (tag' +:+ s')) = false) →
  str_contains (String c EmptyString) tag' = false →
  split_from (String c sep') 0 (String c tag' +:+ s)
  = push_str (String c tag') (split_from (String c sep') 0 s).
Proof.
  intros Hmis Hfree.
  change (String c tag' +:+ s) with (String c (tag' +:+ s)).
  rewrite split_from_mismatch by apply Hmis.
  rewrite split_from_fresh by done.
  pose proof (split_from_nonempty (String c sep') 0 s) as Hne.
  destruct (split_from (String c sep') 0 s) as [|p ps]; [by destruct Hne | done].
Qed.

(** The text before the first occurrence of the separator is the first
    piece. *)
Lemma split_from_first c sep' a rest :
  str_contains (String c EmptyString) a = false →
  split_from (String c sep') 0 (a +:+ String c sep' +:+ rest)
  = a :: split_from (String c sep') 0 rest.
Proof.
  intros Hfree.
  rewrite split_from_fresh by done. rewrite split_from_match. simpl.
  by rewrite append_empty_r.
Qed.

Section RoundTrip.
Variable strip : string → string.
Variables pre T mid A post : string.
Hypothesis pre_free : str_contains "<" pre = false.
Hypothesis T_free : str_contains "<" T = false.
Hypothesis mid_free : str_contains "<" mid = false.
Hypothesis A_free : str_contains "<" A = false.

Local Abbreviation output :=
  (pre +:+ "<think>" +:+ T +:+ "</think>" +:+ mid +:+ "<answer>" +:+ A
     +:+ "</answer>" +:+ post).

Lemma think_piece_well_formed : think_piece output = Some T.
Proof.
  unfold think_piece, str_split. rewrite split_from_first by done.
  change ((pre :: ?l) !! 1) with (l !! 0).
  rewrite split_from_fresh by done.
  rewrite (split_from_other_tag _ "think>" "/think>") by done.
  destruct (str_split_head "<think>" (mid +:+ "<answer>" +:+ A +:+ "</answer>" +:+ post))
    as (p0 & ps & Hp).
  unfold str_split in Hp. rewrite Hp.
  change (push_str T (push_str "</think>" (p0 :: ps)) !! 0)
    with (Some (T +:+ "</think>" +:+ p0)).
  change (Some ?x ≫= ?f) with (f x). cbv beta.
  by rewrite split_from_first.
Qed.

Lemma answer_piece_well_formed : answer_piece output = Some A.
Proof.
  unfold answer_piece.
  assert (Ha : str_contains "<answer>" output = true).
  { do 5 (apply str_contains_app_r). apply str_contains_starts, starts_with_app. }
  assert (Hb : str_contains "</answer>" output = true).
  { do 7 (apply str_contains_app_r). apply str_contains_starts, starts_with_app. }
  rewrite Ha, Hb. change (true && true) with true. cbv iota.
  unfold str_split.
  rewrite split_from_fresh by done.
  rewrite (split_from_other_tag _ "answer>" "think>") by done.
  rewrite split_from_fresh by done.
  rewrite (split_from_other_tag _ "answer>" "/think>") by done.
  rewrite split_from_first by done.
  rewrite !push_str_lookup_S by (try apply push_str_nonempty; done).
  change ((mid :: ?l) !! 1) with (l !! 0).
  rewrite split_from_fresh by done.
  rewrite (split_from_other_tag _ "answer>" "/answer>") by done.
  destruct (str_split_head "<answer>" post) as (q0 & qs & Hq).
  unfold str_split in Hq. rewrite Hq.
  change (push_str A (push_str "</answer>" (q0 :: qs)) !! 0)
    with (Some (A +:+ "</answer>" +:+ q0)).
  change (Some ?x ≫= ?f) with (f x). cbv beta.
  by rewrite split_from_first.
Qed.

(** X24: an output made of a reasoning text between [<think>] and
    [</think>] and an answer text between [<answer>] and [</answer>],
    where the texts before, between and inside the tags hold no [<], is
    read back: the extraction gives the stripped reasoning and the
    stripped answer (nothing when one of them strips to the empty
    string), whatever follows [</answer>]. *)
Theorem extract_well_formed :
  extract_logic_and_answer strip output =
    if Nat.eqb (String.length (strip T)) 0 || Nat.eqb (String.length (strip A)) 0
    then None else Some (strip T, strip A).
Proof.
  unfold extract_logic_and_answer.
  by rewrite think_piece_well_formed, answer_piece_well_formed.
Qed.
End RoundTrip.

(** * The sampling loop *)

Section SamplingProps.
Variable strip : string → string.
Variable generate : nat → nat → list string.

Lemma collect_outputs_spec pb sol k outputs acc :
  ∃ extra,
    collect_outputs strip pb sol k outputs acc = acc ++ extra ∧
    Forall (sample_ok pb sol) extra ∧
    (length acc < k → length (acc ++ extra) ≤ k).
Proof.
  revert acc. induction outputs as [|output rest IH]; intros acc.
  - exists []. rewrite app_nil_r. split; [done|]. split; [constructor | lia].
  - cbn [collect_outputs].
    destruct (validate_output (strip output)); [|apply IH].
    destruct (extract_logic_and_answer strip (strip output)) as [[t a]|] eqn:He; [|apply IH].
    apply extract_Some_inv in He as [Ht Ha].
    set (s := {| problem := pb; solution := sol; logic_trajectory := t; answer := a |}).
    assert (Hs : sample_ok pb sol s) by done.
    destruct (Nat.leb_spec k (length (acc ++ [s]))) as [Hk|Hk].
    + exists [s]. split; [done|]. split; [by constructor|].
      rewrite length_app in *. simpl in *. lia.
    + destruct (IH (acc ++ [s])) as (extra & Heq & Hok & Hlen).
      exists (s :: extra). rewrite Heq, <- app_assoc. split; [done|].
      split; [by constructor|]. intros _.
      rewrite <- app_assoc in Hlen. by apply Hlen.
Qed.

Lemma retry_loop_spec pb sol k remaining retries acc :
  length acc ≤ k →
  Forall (sample_ok pb sol) acc →
  let r := retry_loop strip generate pb sol k remaining retries acc in
  retries ≤ r.1 ≤ retries + remaining ∧
  length r.2 ≤ k ∧
  (length r.2 < k → r.1 = retries + remaining) ∧
  Forall (sample_ok pb sol) r.2.
Proof.
  revert retries acc. induction remaining as [|remaining IH]; intros retries acc Hlen Hok.
  - simpl. destruct (length acc <? k); simpl; repeat split; (done || lia).
  - cbn [retry_loop]. destruct (Nat.ltb_spec (length acc) k) as [Hlt|Hge].
    + destruct (collect_outputs_spec pb sol k
                  (generate (S retries) (k - length acc)) acc) as (extra & -> & Hex & Hle).
      specialize (IH (S retries) (acc ++ extra) (Hle Hlt)).
      destruct IH as (H1 & H2 & H3 & H4); [by apply Forall_app|].
      cbv zeta. repeat split; try done; try lia.
    + simpl. repeat split; try done; lia.
Qed.

(** X25: for one item the loop calls the generator at most
    [max_retries] times and keeps at most [k] samples; it stops short of
    [k] samples only after all [max_retries] calls; every kept sample
    carries the item's problem and solution and a non-empty reasoning
    and answer; and with [k ≤ 0] or [max_retries ≤ 0] the generator is
    not called and nothing is kept. *)
Theorem sample_item_spec pb sol (k max_retries : Z) :
  let r := sample_item strip generate pb sol k max_retries in
  r.1 ≤ Z.to_nat max_retries ∧
  length r.2 ≤ Z.to_nat k ∧
  (length r.2 < Z.to_nat k → r.1 = Z.to_nat max_retries) ∧
  Forall (sample_ok pb sol) r.2 ∧
  ((k ≤ 0)%Z ∨ (max_retries ≤ 0)%Z → r = (0, [])).
Proof.
  unfold sample_item.
  destruct (retry_loop_spec pb sol (Z.to_nat k) (Z.to_nat max_retries) 0 [])
    as (H1 & H2 & H3 & H4); [simpl; lia | constructor |].
  cbv zeta. simpl fst. simpl snd. rewrite take_ge by done.
  split; [lia|]. split; [done|]. split; [intros Hk; rewrite (H3 Hk); lia|]. split; [done|].
  intros [Hk|Hm].
  - replace (Z.to_nat k) with 0 by lia. by destruct (Z.to_nat max_retries).
  - replace (Z.to_nat max_retries) with 0 by lia. simpl.
    by destruct (Z.to_nat k).
Qed.
End SamplingProps.

(** Two rounds: the first call gives one usable output out of two, the
    second call completes the two samples asked for. *)
Example sample_item_two_rounds :
  sample_item ascii_strip two_round_generate "1+1" "2" 2 3
  = (2, [ {| problem := "1+1"; solution := "2";
             logic_trajectory := "add"; answer := "2" |};
          {| problem := "1+1"; solution := "2";
             logic_trajectory := "carry"; answer := "3" |} ]).
Proof. reflexivity. Qed.

Lemma extract_never_empty_witness :
  extract_logic_and_answer ascii_strip "<think> add </think><answer> 2 </answer>"
    = Some ("add", "2") ∧
  "add" ≠ "" ∧ "2" ≠ "".
Proof.
  assert (He : extract_logic_and_answer ascii_strip
                 "<think> add </think><answer> 2 </answer>" = Some ("add", "2"))
    by reflexivity.
  split; [exact He|].
  exact (extract_never_empty ascii_strip _ _ _ He).
Defined.

Lemma extract_validated_witness :
  validate_output "x<think>a</think>b" = true ∧
  ∃ t a,
    think_piece "x<think>a</think>b" = Some t ∧
    answer_piece "x<think>a</think>b" = Some a ∧
    extract_logic_and_answer ascii_strip "x<think>a</think>b" =
      if Nat.eqb (String.length (ascii_strip t)) 0
         || Nat.eqb (String.length (ascii_strip a)) 0
      then None else Some (ascii_strip t, ascii_strip a).
Proof.
  assert (Hv : validate_output "x<think>a</think>b" = true) by reflexivity.
  split; [exact Hv|].
  exact (extract_validated ascii_strip "x<think>a</think>b" Hv).
Defined.

Lemma extract_missing_tags_witness :
  str_contains "<think>" "a</think>b" = false ∧
  extract_logic_and_answer ascii_strip "a</think>b" = None.
Proof.
  assert (Hc : str_contains "<think>" "a</think>b" = false) by reflexivity.
  split; [exact Hc|].
  exact (extract_missing_tags ascii_strip "a</think>b" (or_introl Hc)).
Defined.

Lemma extract_well_formed_witness :
  str_contains "<" "Sure. " = false ∧
  str_contains "<" " add " = false ∧
  str_contains "<" " so " = false ∧
  str_contains "<" " 2 " = false ∧
  extract_logic_and_answer ascii_strip
    ("Sure. " +:+ "<think>" +:+ " add " +:+ "</think>" +:+ " so " +:+ "<answer>"
       +:+ " 2 " +:+ "</answer>" +:+ "<answer>3</answer>")
  = if Nat.eqb (String.length (ascii_strip " add ")) 0
       || Nat.eqb (String.length (ascii_strip " 2 ")) 0
    then None else Some (ascii_strip " add ", ascii_strip " 2 ").
Proof.
  assert (H1 : str_contains "<" "Sure. " = false) by reflexivity.
  assert (H2 : str_contains "<" " add " = false) by reflexivity.
  assert (H3 : str_contains "<" " so " = false) by reflexivity.
  assert (H4 : str_contains "<" " 2 " = false) by reflexivity.
  split; [exact H1|]. split; [exact H2|]. split; [exact H3|]. split; [exact H4|].
  exact (extract_well_formed ascii_strip "Sure. " " add " " so " " 2 "
           "<answer>3</answer>" H1 H2 H3 H4).
Defined.

(** ** One round is enough when every output is usable *)

Section FirstRound.
Variable strip : string → string.
Variable generate : nat → nat → list string.

Lemma collect_outputs_usable pb sol k outputs acc :
  Forall (usable strip) outputs →
  length acc < k →
  k - length acc ≤ length outputs →
  length (collect_outputs strip pb sol k outputs acc) = k.
Proof.
  intros Hall. revert acc. induction Hall as [|output rest [Hv [[t a] He]] _ IH];
    intros acc Hlt Hlen; [simpl in Hlen; lia|].
  cbn [collect_outputs]. rewrite Hv, He.
  destruct (Nat.leb_spec k (length (acc ++ [ {| problem := pb; solution := sol;
              logic_trajectory := t; answer := a |} ]))) as [Hk|Hk].
  - rewrite length_app in *. simpl in *. lia.
  - apply IH; rewrite length_app in *; simpl in *; lia.
Qed.

(** X27: with [k ≥ 1] and [max_retries ≥ 1], when the first call of the
    generator returns at least [k] outputs and each of them passes the
    validation and the extraction, the loop makes that single call and
    keeps exactly [k] samples. *)
Theorem sample_item_first_round pb sol (k max_retries : Z) :
  (1 ≤ k)%Z →
  (1 ≤ max_retries)%Z →
  Forall (usable strip) (generate 1 (Z.to_nat k)) →
  Z.to_nat k ≤ length (generate 1 (Z.to_nat k)) →
  let r := sample_item strip generate pb sol k max_retries in
  r.1 = 1 ∧ length r.2 = Z.to_nat k.
Proof.
  intros Hk Hm Hall Hlen. unfold sample_item.
  destruct (Z.to_nat max_retries) as [|remaining] eqn:Hr; [lia|].
  destruct (Z.to_nat k) as [|k'] eqn:Hk'; [lia|].
  cbn [retry_loop]. change (length (@nil Sample) <? S k') with true. cbv iota.
  change (S k' - length (@nil Sample)) with (S k').
  pose proof (collect_outputs_usable pb sol (S k') (generate 1 (S k')) []
                Hall ltac:(simpl; lia) ltac:(simpl; lia)) as Hc.
  destruct remaining; cbn [retry_loop]; rewrite Hc, Nat.ltb_irrefl; cbv zeta; simpl fst;
    simpl snd; (split; [done|]); rewrite take_ge; lia.
Qed.
End FirstRound.

Lemma sample_item_first_round_witness :
  (1 ≤ 2)%Z ∧ (1 ≤ 3)%Z ∧
  Forall (usable ascii_strip) (steady_generate 1 (Z.to_nat 2)) ∧
  Z.to_nat 2 ≤ length (steady_generate 1 (Z.to_nat 2)) ∧
  (sample_item ascii_strip steady_generate "1+1" "2" 2 3).1 = 1 ∧
  length (sample_item ascii_strip steady_generate "1+1" "2" 2 3).2 = Z.to_nat 2.
Proof.
  assert (Hk : (1 ≤ 2)%Z) by lia.
  assert (Hm : (1 ≤ 3)%Z) by lia.
  assert (Hall : Forall (usable ascii_strip) (steady_generate 1 (Z.to_nat 2))).
  { repeat constructor; by eexists. }
  assert (Hlen : Z.to_nat 2 ≤ length (steady_generate 1 (Z.to_nat 2)))
    by (vm_compute; lia).
  split; [exact Hk|]. split; [exact Hm|]. split; [exact Hall|]. split; [exact Hlen|].
  exact (sample_item_first_round ascii_strip steady_generate "1+1" "2" 2 3
           Hk Hm Hall Hlen).
Defined.

Lemma forward_length_bound_witness :
  tokens_shape small_aligner ∧
  attention_shape small_aligner ∧
  batch_shape 8 (hidden_size small_aligner)
    (embed <$> region_batch) region_batch ones_masks ∧
  length [0; 0]%Z = hidden_size small_aligner ∧
  embed <$> region_batch ≠ [] ∧
  Forall (λ ids, ¬ faulty (tok := char_tokenizer) ids) region_batch ∧
  forward (tok := char_tokenizer) small_aligner (embed <$> region_batch)
    region_batch ones_masks [0; 0]%Z
    = Ok ([embed [5; 7; 3; 3; 9; 9; 2]%Z; embed [3; 3; 5; 5; 5; 5; 0]%Z],
          [[1; 1; 1; 1; 1; 1; 1]%Z; [1; 1; 1; 1; 1; 1; 0]%Z]) ∧
  Forall (λ e, length e ≤ 8 `max` (8 + k small_aligner - 2))
    [embed [5; 7; 3; 3; 9; 9; 2]%Z; embed [3; 3; 5; 5; 5; 5; 0]%Z] ∧
  Forall (λ m, length m ≤ 8 `max` (8 + k small_aligner - 2))
    [[1; 1; 1; 1; 1; 1; 1]%Z; [1; 1; 1; 1; 1; 1; 0]%Z].
Proof.
  assert (Hshape : batch_shape 8 (hidden_size small_aligner)
    (embed <$> region_batch) region_batch ones_masks).
  { apply embed_batch_shape; by repeat constructor. }
  assert (Hne : embed <$> region_batch ≠ []) by discriminate.
  assert (Hnf : Forall (λ ids, ¬ faulty (tok := char_tokenizer) ids) region_batch).
  { repeat constructor; unfold faulty; vm_compute; lia. }
  assert (Hf : forward (tok := char_tokenizer) small_aligner (embed <$> region_batch)
    region_batch ones_masks [0; 0]%Z
    = Ok ([embed [5; 7; 3; 3; 9; 9; 2]%Z; embed [3; 3; 5; 5; 5; 5; 0]%Z],
          [[1; 1; 1; 1; 1; 1; 1]%Z; [1; 1; 1; 1; 1; 1; 0]%Z])) by reflexivity.
  split; [exact small_aligner_tokens_shape|].
  split; [exact small_aligner_attention_shape|].
  split; [exact Hshape|]. split; [reflexivity|]. split; [exact Hne|]. split; [exact Hnf|].
  split; [exact Hf|].
  exact (forward_length_bound (tok := char_tokenizer) small_aligner _ _ _ [0; 0]%Z 8 _ _
           small_aligner_tokens_shape small_aligner_attention_shape Hshape eq_refl
           Hne Hnf Hf).
Defined.
